(** * Deferred-call nodes of [pulser.parametrized.paramobj]

    A shallow embedding of [ParamObj] and [OpSupport] and the properties of
    construction, memoised [build], attribute and call proxying,
    serialisation and rendering.

    Python objects are mutable and shared, so the nodes live in a store
    indexed by allocation order; a node is referred to by its index.  A
    node can only refer to nodes that existed when it was constructed. *)

From stdpp Require Import gmap strings list fin_maps pretty.
From Stdlib Require Import ZArith.

Local Open Scope string_scope.
Local Open Scope list_scope.
Local Open Scope nat_scope.

(** ** Python values *)

Abbreviation var_id := nat (only parsing).
Abbreviation node_id := nat (only parsing).

(** The functions of [operator] the module refers to, and the built-in
    [getattr]. *)
Inductive builtin : Type :=
  | Badd | Bsub | Bmul | Btruediv | Bfloordiv | Bpow | Bmod
  | Bneg | Babs
  | Bgetattr.

Inductive value : Type :=
  | VNone
  | VBool (b : bool)
  | VInt (z : Z)
  | VStr (s : string)
  | VBuiltin (b : builtin)
  | VFun (name module_ : string)   (* a class or function: has __name__ and __module__ *)
  | VObj (tag : nat)               (* any other concrete object *)
  | VVar (x : var_id)              (* a Variable, which is Parametrized *)
  | VParamObj (n : node_id).       (* a ParamObj, which is Parametrized *)

#[global] Instance builtin_eq_dec : EqDecision builtin.
Proof. solve_decision. Defined.
#[global] Instance value_eq_dec : EqDecision value.
Proof. solve_decision. Defined.


(** [isinstance(v, Parametrized)]. *)
Definition isParametrized (v : value) : bool :=
  match v with VVar _ | VParamObj _ => true | _ => false end.

Inductive exn : Type :=
  | AttributeError (msg : string)
  | PyError (kind msg : string).

(** What evaluating a Python expression gives: a value, a raised
    exception, or [Stuck] when the store is not one Python can produce (a
    reference to a node that does not exist or is not older). *)
Inductive outcome (A : Type) : Type :=
  | Ok (a : A)
  | Raise (e : exn)
  | Stuck.
Arguments Ok {A} a.
Arguments Raise {A} e.
Arguments Stuck {A}.

Definition builtin_name (b : builtin) : string :=
  match b with
  | Badd => "add" | Bsub => "sub" | Bmul => "mul" | Btruediv => "truediv"
  | Bfloordiv => "floordiv" | Bpow => "pow" | Bmod => "mod"
  | Bneg => "neg" | Babs => "abs" | Bgetattr => "getattr"
  end.

Definition builtin_module (b : builtin) : string :=
  match b with Bgetattr => "builtins" | _ => "_operator" end.

(** [v.__name__] and [v.__module__] of an object that is not Parametrized. *)
Definition dunder_name (v : value) : option string :=
  match v with
  | VFun nm _ => Some nm
  | VBuiltin b => Some (builtin_name b)
  | _ => None
  end.

Definition dunder_module (v : value) : option string :=
  match v with
  | VFun _ md => Some md
  | VBuiltin b => Some (builtin_module b)
  | _ => None
  end.

Definition no_attribute (attr : string) : exn :=
  AttributeError ("object has no attribute '" +:+ attr +:+ "'").

(** The function of [operator] behind each dunder name the module uses:
    the seven of [reversible_ops], [__neg__] and [__abs__]. *)
Definition operator_function (op_name : string) : option builtin :=
  if decide (op_name = "__add__") then Some Badd
  else if decide (op_name = "__sub__") then Some Bsub
  else if decide (op_name = "__mul__") then Some Bmul
  else if decide (op_name = "__truediv__") then Some Btruediv
  else if decide (op_name = "__floordiv__") then Some Bfloordiv
  else if decide (op_name = "__pow__") then Some Bpow
  else if decide (op_name = "__mod__") then Some Bmod
  else if decide (op_name = "__neg__") then Some Bneg
  else if decide (op_name = "__abs__") then Some Babs
  else None.

(** ** The behaviour of the objects the module does not define *)

(** The wrapped callables, the attributes of concrete objects and their
    textual form are opaque to the module.  A call is taken to be a function
    of the callee and its arguments: it returns or raises, and it neither
    assigns variables nor builds nodes itself. *)
Class Runtime : Type := {
  (* obj( *args_, **kwargs_ ) *)
  py_call : value → list value → list (string * value) → exn + value;
  (* hasattr(v, name) for v that is not a ParamObj *)
  py_hasattr : value → string → bool;
  (* str(v) for v that is not Parametrized *)
  py_str : value → string;
  (* the names ordinary attribute lookup finds on a ParamObj, for which
     __getattr__ is not consulted *)
  paramobj_attr : string → bool;
  (* getattr(operator, name) for the other names of the module [operator];
     None when the module has no such attribute *)
  operator_attr : string → option value
}.

(** [getattr(operator, op_name)]. *)
Definition operator_getattr `{Runtime} (op_name : string) : option value :=
  match operator_function op_name with
  | Some b => Some (VBuiltin b)
  | None => operator_attr op_name
  end.

Definition operator_no_attribute (attr : string) : exn :=
  AttributeError ("module 'operator' has no attribute '" +:+ attr +:+ "'").

(** ** The store *)

(** Modelled from the spec: the class Variable is not part of this module.
    A variable has a name, a version counter incremented on every value
    mutation, and a current value; it is built by returning its current
    value, its [variables] is the mapping of its name to itself, and it is
    rendered by its name. *)
Record VariableObj : Type := mkVariable {
  v_name : string;
  v_count : Z;
  v_value : value
}.

Record ParamObj : Type := mkParamObj {
  cls : value;
  _variables : gmap string var_id;
  args : list value;
  kwargs : list (string * value);
  _instance : value;
  _vars_state : gmap string Z
}.

(** One entry per execution of [obj( *args_, **kwargs_ )] in [build]. *)
Record invocation : Type := mkInvocation {
  inv_obj : value;
  inv_args : list value;
  inv_kwargs : list (string * value)
}.

Record state : Type := mkState {
  nodes : list ParamObj;
  variables_store : list VariableObj;
  call_log : list invocation;
  warning_log : list string
}.

Definition set_nodes (f : list ParamObj → list ParamObj) (s : state) : state :=
  mkState (f (nodes s)) (variables_store s) (call_log s) (warning_log s).

Definition set_variables_store (f : list VariableObj → list VariableObj) (s : state) : state :=
  mkState (nodes s) (f (variables_store s)) (call_log s) (warning_log s).

Definition with_vars_state (vs : gmap string Z) (p : ParamObj) : ParamObj :=
  mkParamObj (cls p) (_variables p) (args p) (kwargs p) (_instance p) vs.

Definition with_instance (v : value) (p : ParamObj) : ParamObj :=
  mkParamObj (cls p) (_variables p) (args p) (kwargs p) v (_vars_state p).

(** The variable a reference stands for.  A reference is never dangling
    in Python; the default is only reached in stores Python cannot produce. *)
Definition var_object (s : state) (x : var_id) : VariableObj :=
  default (mkVariable "" 0 VNone) (variables_store s !! x).

Definition var_count (s : state) (x : var_id) : Z := v_count (var_object s x).
Definition var_name (s : state) (x : var_id) : string := v_name (var_object s x).
Definition var_value (s : state) (x : var_id) : value := v_value (var_object s x).

(** ** A state and exception monad *)

Definition M (A : Type) : Type := state → outcome A * state.

Definition ret {A} (a : A) : M A := λ s, (Ok a, s).
Definition raise {A} (e : exn) : M A := λ s, (Raise e, s).
Definition stuck {A} : M A := λ s, (Stuck, s).
Definition bind {A B} (m : M A) (k : A → M B) : M B :=
  λ s, match m s with
       | (Ok a, s') => k a s'
       | (Raise e, s') => (Raise e, s')
       | (Stuck, s') => (Stuck, s')
       end.

Notation "x <- m ;; k" := (bind m (λ x, k))
  (at level 100, m at next level, right associativity).
Notation "m ;;; k" := (bind m (λ _, k))
  (at level 100, right associativity).

(** A list or dict comprehension whose element expression has effects. *)
Fixpoint mapM_st {A B} (f : A → M B) (l : list A) : M (list B) :=
  match l with
  | [] => ret []
  | a :: l' => b <- f a ;; bs <- mapM_st f l' ;; ret (b :: bs)
  end.

(** Code that only reads the store. *)
Definition lift {A} (f : state → outcome A) : M A := λ s, (f s, s).

#[global] Instance outcome_ret : MRet outcome := λ A a, Ok a.
#[global] Instance outcome_bind : MBind outcome := λ A B k m,
  match m with Ok a => k a | Raise e => Raise e | Stuck => Stuck end.

Definition get_node (n : node_id) : M ParamObj :=
  λ s, match nodes s !! n with Some p => (Ok p, s) | None => (Stuck, s) end.

Definition update_node (n : node_id) (f : ParamObj → ParamObj) : M unit :=
  λ s, (Ok tt, set_nodes (alter f n) s).

(** ** Construction *)

(** [x.variables] for a Parametrized [x]. *)
Definition variables (s : state) (x : value) : gmap string var_id :=
  match x with
  | VVar v => {[ var_name s v := v ]}
  | VParamObj n => match nodes s !! n with Some p => _variables p | None => ∅ end
  | _ => ∅
  end.

(** [d.update(other)]: the entries of [other] replace those of [d]. *)
Definition dict_update {V} (d other : gmap string V) : gmap string V := other ∪ d.

(** [if isinstance(x, Parametrized): self._variables.update(x.variables)]. *)
Definition merge_variables (s : state) (acc : gmap string var_id) (x : value)
    : gmap string var_id :=
  if isParametrized x then dict_update acc (variables s x) else acc.

(** The variables an object contributes to a node constructed from it. *)
Definition referenced (s : state) (x : value) : gmap string var_id :=
  merge_variables s ∅ x.

(** The body of [ParamObj.__init__]. *)
Definition ParamObj_init (s : state) (cls0 : value) (args0 : list value)
    (kwargs0 : list (string * value)) : ParamObj :=
  let vars0 : gmap string var_id := ∅ in
  let vars1 := merge_variables s vars0 cls0 in
  let vars2 := foldl (merge_variables s) vars1 (args0 ++ kwargs0.*2) in
  mkParamObj cls0 vars2 args0 kwargs0 VNone ∅.

(** Binding the arguments of a call to a signature [f(p1, .., pk, *args,
    **kwargs)] whose named parameters are all given positionally: a keyword
    that names one of them would give it a second value, which is a
    TypeError raised before the body of [f] runs.  The first such keyword,
    in the order of the call, is the one reported. *)
Fixpoint keyword_clash (params : list string) (kwargs0 : list (string * value))
    : option string :=
  match kwargs0 with
  | [] => None
  | (key, _) :: rest =>
    if decide (key ∈ params) then Some key else keyword_clash params rest
  end.

(** The wording of the message is the interpreter's (recent versions
    qualify the name of the function); the properties below do not depend
    on it. *)
Definition multiple_values (fn key : string) : exn :=
  PyError "TypeError" (fn +:+ "() got multiple values for argument '" +:+ key +:+ "'").

Definition bind_arguments (fn : string) (params : list string)
    (kwargs0 : list (string * value)) : M unit :=
  match keyword_clash params kwargs0 with
  | Some key => raise (multiple_values fn key)
  | None => ret tt
  end.

(** The named parameters of [ParamObj.__init__(self, cls, *args, **kwargs)]
    and of [ParamObj.__call__(self, *args, **kwargs)]. *)
Definition init_params : list string := ["self"; "cls"].
Definition call_params : list string := ["self"].

(** A fresh object on which the body of [__init__] has run. *)
Definition allocate (cls0 : value) (args0 : list value)
    (kwargs0 : list (string * value)) : M value :=
  λ s, (Ok (VParamObj (length (nodes s))),
        set_nodes (λ ns, ns ++ [ParamObj_init s cls0 args0 kwargs0]) s).

(** [ParamObj(cls, *args, **kwargs)]: binds the arguments of [__init__]
    and allocates the node. *)
Definition new_ParamObj (cls0 : value) (args0 : list value)
    (kwargs0 : list (string * value)) : M value :=
  bind_arguments "__init__" init_params kwargs0 ;;;
  allocate cls0 args0 kwargs0.

(** ** build *)

Section Build.
Context `{Runtime}.

(** The store after one more call has been recorded. *)
Definition logged (obj : value) (args_ : list value) (kwargs_ : list (string * value))
    (s : state) : state :=
  mkState (nodes s) (variables_store s)
          (call_log s ++ [mkInvocation obj args_ kwargs_]) (warning_log s).

(** [obj( *args_, **kwargs_ )], recorded in the log of the store. *)
Definition invoke (obj : value) (args_ : list value) (kwargs_ : list (string * value)) : M value :=
  λ s, match py_call obj args_ kwargs_ with
       | inr r => (Ok r, logged obj args_ kwargs_ s)
       | inl e => (Raise e, logged obj args_ kwargs_ s)
       end.

(** [{key: var._count for key, var in self._variables.items()}]. *)
Definition snapshot (s : state) (vars : gmap string var_id) : gmap string Z :=
  var_count s <$> vars.

(** [arg.build() if isinstance(arg, Parametrized) else arg]. *)
Definition build_value (build_node : node_id → M value) (arg : value) : M value :=
  match arg with
  | VParamObj m => build_node m
  | VVar x => λ s, (Ok (var_value s x), s)
  | _ => ret arg
  end.

(** One entry of the dict comprehension over [self.kwargs.items()]. *)
Definition build_kwarg (build_node : node_id → M value) (kv : string * value)
    : M (string * value) :=
  v <- build_value build_node kv.2 ;; ret (kv.1, v).

(** [self.cls.build() if isinstance(self.cls, ParamObj) else self.cls]. *)
Definition resolve_cls (build_node : node_id → M value) (c : value) : M value :=
  match c with
  | VParamObj m => build_node m
  | _ => ret c
  end.

(** The body of the [if] of [build]: the cache miss. *)
Definition rebuild (build_node : node_id → M value) (n : node_id) (self : ParamObj)
    (vars_state : gmap string Z) : M unit :=
  update_node n (with_vars_state vars_state) ;;;
  args_ <- mapM_st (build_value build_node) (args self) ;;
  kwargs_ <- mapM_st (build_kwarg build_node) (kwargs self) ;;
  obj <- resolve_cls build_node (cls self) ;;
  r <- invoke obj args_ kwargs_ ;;
  update_node n (with_instance r).

Fixpoint build_fuel (fuel : nat) (n : node_id) : M value :=
  match fuel with
  | O => stuck
  | S fuel' =>
    self <- get_node n ;;
    (λ s,
      let vars_state := snapshot s (_variables self) in
      if decide (vars_state ≠ _vars_state self)
      then rebuild (build_fuel fuel') n self vars_state s
      else ret tt s) ;;;
    self' <- get_node n ;;
    ret (_instance self')
  end.

(** A node refers to older nodes only, so [S n] steps are enough for
    node [n] (see [build_fuel_enough]). *)
Definition build (n : node_id) : M value := build_fuel (S n) n.
End Build.

(** ** Rendering, attribute and call proxying *)

Section Proxy.
Context `{Runtime}.

(** [str(a)]. *)
Definition str_value (str_node : node_id → outcome string) (s : state) (a : value)
    : outcome string :=
  match a with
  | VParamObj m => str_node m
  | VVar x => Ok (var_name s x)
  | _ => Ok (py_str a)
  end.

(** [ParamObj.__str__]. *)
Fixpoint str_fuel (fuel : nat) (s : state) (n : node_id) : outcome string :=
  match fuel with
  | O => Stuck
  | S fuel' =>
    match nodes s !! n with
    | None => Stuck
    | Some self =>
      args_ ← mapM (str_value (str_fuel fuel' s) s) (args self);
      kwargs_ ← mapM (λ kv : string * value,
                        v ← str_value (str_fuel fuel' s) s kv.2;
                        mret (kv.1 +:+ "=" +:+ v)) (kwargs self);
      name ← (if isParametrized (cls self) then str_value (str_fuel fuel' s) s (cls self)
              else match dunder_name (cls self) with
                   | Some nm => Ok nm
                   | None => Raise (no_attribute "__name__")
                   end);
      mret (name +:+ "(" +:+ String.concat ", " (args_ ++ kwargs_) +:+ ")")
    end
  end.

Definition __str__ (s : state) (n : node_id) : outcome string := str_fuel (S n) s n.

(** [hasattr(v, name)].  On a ParamObj, ordinary lookup comes first and
    then its [__getattr__], which succeeds exactly when its own target has
    the attribute; the node that call would allocate is unreachable and
    is not recorded. *)
Fixpoint hasattr_fuel (fuel : nat) (s : state) (v : value) (name : string) : outcome bool :=
  match v with
  | VParamObj m =>
    if paramobj_attr name then Ok true
    else match fuel with
         | O => Stuck
         | S fuel' =>
           match nodes s !! m with
           | None => Stuck
           | Some p => hasattr_fuel fuel' s (cls p) name
           end
         end
  | _ => Ok (py_hasattr v name)
  end.

Definition hasattr (s : state) (v : value) (name : string) : outcome bool :=
  hasattr_fuel (match v with VParamObj m => S m | _ => O end) s v name.

(** [ParamObj.__getattr__]. *)
Definition __getattr__ (n : node_id) (name : string) : M value :=
  self <- get_node n ;;
  found <- lift (λ s, hasattr s (cls self) name) ;;
  if (found : bool) then new_ParamObj (VBuiltin Bgetattr) [VParamObj n; VStr name] []
  else
    rendering <- lift (λ s, __str__ s n) ;;
    raise (AttributeError ("No attribute named '" +:+ name +:+ "' in " +:+ rendering +:+ ".")).

Definition stray_call_warning (rendering : string) : string :=
  "Calls to methods of parametrized objects are only "
  +:+ "executed if they serve as arguments of other "
  +:+ "parametrized objects that are themselves built. If this"
  +:+ " is not the case, the call to " +:+ rendering +:+ " will not be "
  +:+ "executed upon sequence building.".

Definition warn (msg : string) : M unit :=
  λ s, (Ok tt, mkState (nodes s) (variables_store s) (call_log s) (warning_log s ++ [msg])).

(** [ParamObj.__call__]. *)
Definition __call__ (n : node_id) (args0 : list value) (kwargs0 : list (string * value))
    : M value :=
  bind_arguments "__call__" call_params kwargs0 ;;;
  obj <- new_ParamObj (VParamObj n) args0 kwargs0 ;;
  rendering <- lift (λ s, str_value (__str__ s) s obj) ;;
  warn (stray_call_warning rendering) ;;;
  ret obj.
End Proxy.

(** ** OpSupport *)

Definition reversible_ops : list string :=
  ["__add__"; "__sub__"; "__mul__"; "__truediv__"; "__floordiv__"; "__pow__"; "__mod__"].

Definition _do_op `{Runtime} (self : value) (op_name : string) (other : value) : M value :=
  match operator_getattr op_name with
  | Some f => new_ParamObj f [self; other] []
  | None => raise (operator_no_attribute op_name)
  end.

Definition _do_rop `{Runtime} (self : value) (op_name : string) (other : value) : M value :=
  match operator_getattr op_name with
  | Some f => new_ParamObj f [other; self] []
  | None => raise (operator_no_attribute op_name)
  end.

Definition __neg__ (self : value) : M value := new_ParamObj (VBuiltin Bneg) [self] [].
Definition __abs__ (self : value) : M value := new_ParamObj (VBuiltin Babs) [self] [].

(** The methods the loop over [reversible_ops] injects into the class:
    [partialmethod(OpSupport._do_op, method)] under the name [method] and
    [partialmethod(OpSupport._do_rop, method)] under ["__r" + method[2:]]. *)
Inductive injected : Type :=
  | partial_do_op (op_name : string)
  | partial_do_rop (op_name : string).

(** The operator name an injected method passes on. *)
Definition injected_name (i : injected) : string :=
  match i with partial_do_op op_name | partial_do_rop op_name => op_name end.

Definition inject (tbl : gmap string injected) (method : string) : gmap string injected :=
  let rmethod := "__r" +:+ String.substring 2 (String.length method - 2) method in
  <[rmethod := partial_do_rop method]> (<[method := partial_do_op method]> tbl).

Definition OpSupport_injected : gmap string injected := foldl inject ∅ reversible_ops.

(** [self.<method>(other)] for an injected method. *)
Definition call_injected `{Runtime} (method : string) (self other : value) : M value :=
  match OpSupport_injected !! method with
  | Some (partial_do_op op_name) => _do_op self op_name other
  | Some (partial_do_rop op_name) => _do_rop self op_name other
  | None => raise (no_attribute method)
  end.

(** ** Serialisation *)

(** The helper [obj_to_dict] of [pulser.utils] and the [_to_dict] of a
    Variable are not part of this module: they are taken as given. *)
Class Serializer : Type := {
  descr : Type;
  (* obj_to_dict(obj, *positional, **keywords) *)
  obj_to_dict : value → list (descr + value) → list (string * value) → descr;
  Variable_to_dict : VariableObj → descr
}.

Section ToDict.
Context `{Serializer}.

(** [ParamObj._to_dict]. *)
Fixpoint to_dict_fuel (fuel : nat) (s : state) (n : node_id) : outcome descr :=
  match fuel with
  | O => Stuck
  | S fuel' =>
    match nodes s !! n with
    | None => Stuck
    | Some self =>
      cls_dict ← (match cls self with
                  | VParamObj m => to_dict_fuel fuel' s m
                  | VVar x => Ok (Variable_to_dict (var_object s x))
                  | c =>
                    match dunder_name c, dunder_module c with
                    | Some nm, Some md =>
                      Ok (obj_to_dict (VParamObj n) []
                            [("_build", VBool false); ("_name", VStr nm); ("_module", VStr md)])
                    | None, _ => Raise (no_attribute "__name__")
                    | _, None => Raise (no_attribute "__module__")
                    end
                  end);
      mret (obj_to_dict (VParamObj n) (inl cls_dict :: (inr <$> args self)) (kwargs self))
    end
  end.

Definition _to_dict (s : state) (n : node_id) : outcome descr := to_dict_fuel (S n) s n.
End ToDict.

(** ** Well-formed stores *)

(** A value refers to nodes older than [bound] only. *)
Definition refs_below (bound : nat) (v : value) : Prop :=
  match v with VParamObj m => m < bound | _ => True end.

#[global] Instance refs_below_dec bound v : Decision (refs_below bound v).
Proof. destruct v; simpl; apply _. Defined.

Definition node_wf (n : node_id) (p : ParamObj) : Prop :=
  refs_below n (cls p) ∧ Forall (refs_below n) (args p) ∧ Forall (refs_below n) (kwargs p).*2.

#[global] Instance node_wf_dec n p : Decision (node_wf n p).
Proof. unfold node_wf. apply _. Defined.

(** Every node was constructed from objects that existed before it. *)
Definition wf (s : state) : Prop :=
  Forall (λ ip : nat * ParamObj, node_wf ip.1 ip.2) (imap pair (nodes s)).

#[global] Instance wf_dec s : Decision (wf s).
Proof. unfold wf. apply _. Defined.

(** A target that is not Parametrized has a declared name. *)
Definition cls_named (p : ParamObj) : Prop :=
  isParametrized (cls p) = false → is_Some (dunder_name (cls p)).

#[global] Instance cls_named_dec p : Decision (cls_named p).
Proof. unfold cls_named. apply _. Defined.

Definition named (s : state) : Prop := Forall cls_named (nodes s).

#[global] Instance named_dec s : Decision (named s).
Proof. unfold named. apply _. Defined.

(** What a node is made of, as opposed to what it caches. *)
Definition skeleton (p : ParamObj) : value * gmap string var_id * list value * list (string * value) :=
  (cls p, _variables p, args p, kwargs p).

(** Two stores with the same nodes, up to what the nodes cache. *)
Definition same_structure (s s' : state) : Prop :=
  skeleton <$> nodes s' = skeleton <$> nodes s
  ∧ variables_store s' = variables_store s
  ∧ warning_log s' = warning_log s.

(** [s'] has the structure of [s0], and its nodes from [k] on are those of [s0]. *)
Definition framed (s0 : state) (k : nat) (s' : state) : Prop :=
  same_structure s0 s' ∧ ∀ j : nat, (k ≤ j)%nat → nodes s' !! j = nodes s0 !! j.

(** ** Specifications of computations *)

(** [inv I m]: running [m] preserves [I], whatever the outcome. *)
Definition inv {A} (I : state → Prop) (m : M A) : Prop := ∀ s, I s → I (m s).2.

(** [safe I m]: from a state in [I], [m] does not get stuck, and preserves [I]. *)
Definition safe {A} (I : state → Prop) (m : M A) : Prop :=
  ∀ s, I s → (m s).1 ≠ Stuck ∧ I (m s).2.

(** [agree I m m']: from a state in [I] the two computations coincide. *)
Definition agree {A} (I : state → Prop) (m m' : M A) : Prop :=
  ∀ s, I s → m s = m' s ∧ I (m s).2.

(** [extends m m']: wherever [m] is not stuck, [m'] does the same. *)
Definition extends {A} (m m' : M A) : Prop := ∀ s, (m s).1 ≠ Stuck → m' s = m s.

(** ** The operations on a store *)

Inductive operation : Type :=
  | op_new (cls0 : value) (args0 : list value) (kwargs0 : list (string * value))
  | op_build (n : node_id)
  | op_call (n : node_id) (args0 : list value) (kwargs0 : list (string * value))
  | op_getattr (n : node_id) (name : string)
  | op_to_dict (n : node_id)
  | op_str (n : node_id)
  | op_injected (method : string) (self other : value)
  | op_neg (self : value)
  | op_abs (self : value).

(** The store an operation leaves behind, whether it returns or raises. *)
Definition exec `{Runtime} `{Serializer} (op : operation) (s : state) : state :=
  match op with
  | op_new c a k => (new_ParamObj c a k s).2
  | op_build n => (build n s).2
  | op_call n a k => (__call__ n a k s).2
  | op_getattr n name => (__getattr__ n name s).2
  | op_to_dict n => (lift (λ s, _to_dict s n) s).2
  | op_str n => (lift (λ s, __str__ s n) s).2
  | op_injected method self other => (call_injected method self other s).2
  | op_neg self => (__neg__ self s).2
  | op_abs self => (__abs__ self s).2
  end.

(** A sequence of operations, in order. *)
Definition run `{Runtime} `{Serializer} (ops : list operation) (s : state) : state :=
  foldl (λ s op, exec op s) s ops.

(** ** A concrete runtime, for examples *)

Module Demo.
Definition Pulse : value := VFun "Pulse" "pulser.pulse".
Definition four : value := VFun "four" "demo".
Definition positive : value := VFun "positive" "demo".

Definition type_error : exn := PyError "TypeError" "unsupported operand or arguments".

(** Integer arithmetic, a constructor [Pulse(duration)] whose instances
    have the attributes [duration] and [twin] (a pulse of the same
    duration), a constant function and a function that rejects non-positive
    numbers. *)
Definition call (obj : value) (args_ : list value) (kwargs_ : list (string * value))
    : exn + value :=
  match obj, args_, kwargs_ with
  | VBuiltin Badd, [VInt a; VInt b], [] => inr (VInt (a + b))
  | VBuiltin Bsub, [VInt a; VInt b], [] => inr (VInt (a - b))
  | VBuiltin Bmul, [VInt a; VInt b], [] => inr (VInt (a * b))
  | VBuiltin Bfloordiv, [VInt a; VInt b], [] =>
      if decide (b = 0%Z) then inl (PyError "ZeroDivisionError" "integer division or modulo by zero")
      else inr (VInt (a `div` b))
  | VBuiltin Bmod, [VInt a; VInt b], [] =>
      if decide (b = 0%Z) then inl (PyError "ZeroDivisionError" "integer division or modulo by zero")
      else inr (VInt (a `mod` b))
  | VBuiltin Bneg, [VInt a], [] => inr (VInt (- a))
  | VBuiltin Babs, [VInt a], [] => inr (VInt (Z.abs a))
  | VBuiltin Bgetattr, [VObj d; VStr "duration"], [] => inr (VInt (Z.of_nat d))
  | VBuiltin Bgetattr, [VObj d; VStr "twin"], [] => inr (VObj d)
  | VBuiltin Bgetattr, [_; VStr name], [] => inl (no_attribute name)
  | VFun "Pulse" _, [VInt d], [] =>
      if decide (0 < d)%Z then inr (VObj (Z.to_nat d))
      else inl (PyError "ValueError" "duration must be positive")
  | VFun "four" _, [], [] => inr (VInt 4)
  | VFun "positive" _, [VInt a], [] =>
      if decide (0 < a)%Z then inr (VInt a)
      else inl (PyError "ValueError" "not positive")
  | _, _, _ => inl type_error
  end.

Definition has_attribute (v : value) (name : string) : bool :=
  match v with
  | VFun "Pulse" _ | VObj _ => bool_decide (name ∈ ["duration"; "twin"])
  | VBuiltin _ => bool_decide (name ∈ ["__name__"; "__module__"; "__call__"; "__doc__"])
  | _ => false
  end.

Definition str (v : value) : string :=
  match v with
  | VNone => "None"
  | VBool true => "True"
  | VBool false => "False"
  | VInt z => pretty z
  | VStr s => s
  | VBuiltin b => "<built-in function " +:+ builtin_name b +:+ ">"
  | VFun nm _ => "<function " +:+ nm +:+ ">"
  | _ => "<object>"
  end.

Definition own_attr (name : string) : bool :=
  bool_decide (name ∈ ["cls"; "args"; "kwargs"; "variables"; "build"; "_to_dict";
                       "_variables"; "_instance"; "_vars_state"]).

(** Two more names of the module [operator]: a function and a string. *)
Definition operator_module (name : string) : option value :=
  if decide (name = "__matmul__") then Some (VFun "matmul" "_operator")
  else if decide (name = "__name__") then Some (VStr "operator")
  else None.

#[global] Instance runtime : Runtime :=
  {| py_call := call; py_hasattr := has_attribute; py_str := str; paramobj_attr := own_attr;
     operator_attr := operator_module |}.

(** Descriptions as the call of [obj_to_dict] that produced them. *)
#[local] Unset Elimination Schemes.
Inductive dict : Type :=
  | Described (obj : value) (positional : list (dict + value)) (keywords : list (string * value))
  | DescribedVar (name : string).
#[local] Set Elimination Schemes.

#[global] Instance serializer : Serializer :=
  {| descr := dict; obj_to_dict := Described;
     Variable_to_dict := λ v, DescribedVar (v_name v) |}.

Definition empty : state := mkState [] [] [] [].

(** A store with one variable [t] of value 5 at version 0. *)
Definition one_var : state := mkState [] [mkVariable "t" 0 (VInt 5)] [] [].

(** [var.value = v], which increments the version counter. *)
Definition assign (x : var_id) (v : value) (s : state) : state :=
  set_variables_store (alter (λ var, mkVariable (v_name var) (v_count var + 1) v) x) s.

(** [N = ParamObj(positive, t)] in [one_var]: node 0. *)
Definition with_N : state := (new_ParamObj positive [VVar 0] [] one_var).2.

(** [ParamObj(four)] in the empty store: node 0, which has no variables. *)
Definition with_constant : state := (new_ParamObj four [] [] empty).2.

(** A store with one variable [t] of value -1, and [ParamObj(positive, t)]. *)
Definition negative_var : state := mkState [] [mkVariable "t" 0 (VInt (-1))] [] [].
Definition with_N_negative : state := (new_ParamObj positive [VVar 0] [] negative_var).2.

(** [P = ParamObj(Pulse, t, 3, phase=2)] and [ParamObj(P, P)] in [one_var]:
    nodes 0 and 1. *)
Definition with_P : state :=
  (new_ParamObj Pulse [VVar 0; VInt 3] [("phase", VInt 2)] one_var).2.
Definition with_PP : state := (new_ParamObj (VParamObj 0) [VParamObj 0] [] with_P).2.

(** [x = ParamObj(Pulse, t)] in [one_var]: node 0. *)
Definition with_pulse : state := (new_ParamObj Pulse [VVar 0] [] one_var).2.

(** [y = ParamObj(Pulse, 5)], all of whose arguments are concrete, in the
    empty store: node 0. *)
Definition with_concrete_pulse : state := (new_ParamObj Pulse [VInt 5] [] empty).2.

(** [N] as it is after a first, successful [build]. *)
Definition N_built : ParamObj :=
  mkParamObj positive {[ "t" := 0 ]} [VVar 0] [] (VInt 5) {[ "t" := 0%Z ]}.
End Demo.

(** ** Reference computations and predicates *)

(** The call a node stands for: the positional arguments are built in
    order, then the keyword values in order, then the target when it is a
    node, and the resolved callable is applied to the results. *)
Definition evaluate `{Runtime} (c : value) (a : list value) (k : list (string * value))
    : M value :=
  args_ <- mapM_st (build_value build) a ;;
  kwargs_ <- mapM_st (build_kwarg build) k ;;
  obj <- resolve_cls build c ;;
  invoke obj args_ kwargs_.

(** The store after node [n] has recorded the current version counters. *)
Definition record_snapshot `{Runtime} (n : node_id) (s : state) : state :=
  set_nodes (alter (λ p, with_vars_state (snapshot s (_variables p)) p) n) s.

(** What [build] makes of the evaluation of the call of node [n]: a result
    is cached in the node and returned, an exception is passed on. *)
Definition cache_result (n : node_id) (res : outcome value * state)
    : outcome value * state :=
  match res with
  | (Ok r, s2) => (Ok r, set_nodes (alter (with_instance r) n) s2)
  | _ => res
  end.

(** [operator.<b>(build(x), build(y))], [x] built first. *)
Definition apply_operator `{Runtime} (b : builtin) (x y : value) : M value :=
  vx <- build_value build x ;;
  vy <- build_value build y ;;
  invoke (VBuiltin b) [vx; vy] [].

(** The forward name, the reflected name and the function of [operator]
    of each binary operator. *)
Definition operator_methods : list (string * string * builtin) :=
  [("__add__", "__radd__", Badd); ("__sub__", "__rsub__", Bsub);
   ("__mul__", "__rmul__", Bmul); ("__truediv__", "__rtruediv__", Btruediv);
   ("__floordiv__", "__rfloordiv__", Bfloordiv); ("__pow__", "__rpow__", Bpow);
   ("__mod__", "__rmod__", Bmod)].

(** What [build_value] gives for an argument without building anything:
    the cached instance of a node, the value of a variable, the argument
    itself otherwise. *)
Definition cached_value (s : state) (a : value) : value :=
  match a with
  | VParamObj m => default VNone (_instance <$> nodes s !! m)
  | VVar x => var_value s x
  | _ => a
  end.

(** What [resolve_cls] gives for a target without building anything. *)
Definition cached_cls (s : state) (c : value) : value :=
  match c with
  | VParamObj m => default VNone (_instance <$> nodes s !! m)
  | _ => c
  end.

(** The snapshot of a node is the current one: its next build is a hit. *)
Definition up_to_date `{Runtime} (s : state) (v : value) : Prop :=
  match v with
  | VParamObj m => ∃ q, nodes s !! m = Some q ∧ snapshot s (_variables q) = _vars_state q
  | _ => True
  end.

(** The sub-objects of a node, in the order [__init__] merges them. *)
Definition sub_objects (p : ParamObj) : list value :=
  cls p :: args p ++ (kwargs p).*2.

(** The objects an operation is given exist in the store. *)
Definition op_valid (s : state) (op : operation) : Prop :=
  let ok := refs_below (length (nodes s)) in
  match op with
  | op_new c a k => ok c ∧ Forall ok a ∧ Forall ok k.*2
  | op_build n => True
  | op_call n a k => n < length (nodes s) ∧ Forall ok a ∧ Forall ok k.*2
  | op_getattr n name => True
  | op_to_dict n => True
  | op_str n => True
  | op_injected method self other => ok self ∧ ok other
  | op_neg self => ok self
  | op_abs self => ok self
  end.

#[global] Instance op_valid_dec s op : Decision (op_valid s op).
Proof. destruct op; simpl; apply _. Defined.

(** A sequence of operations, each one given objects that exist when it runs. *)
Fixpoint valid_run `{Runtime} `{Serializer} (ops : list operation) (s : state) : Prop :=
  match ops with
  | [] => True
  | op :: rest => op_valid s op ∧ valid_run rest (exec op s)
  end.

#[global] Instance valid_run_dec `{Runtime} `{Serializer} ops s : Decision (valid_run ops s).
Proof. revert s. induction ops; intros s; simpl; apply _. Defined.

(** A second runtime, in which a call can return a callable:
    [make_adder(a)] is an object that, called with [b], returns [a + b]. *)
Module Callables.
Definition make_adder : value := VFun "make_adder" "demo".

Definition call (obj : value) (args_ : list value) (kwargs_ : list (string * value))
    : exn + value :=
  match obj, args_, kwargs_ with
  | VFun "make_adder" _, [VInt a], [] => inr (VObj (Z.to_nat a))
  | VObj a, [VInt b], [] => inr (VInt (Z.of_nat a + b))
  | _, _, _ => Demo.call obj args_ kwargs_
  end.

Definition runtime : Runtime :=
  {| py_call := call; py_hasattr := Demo.has_attribute; py_str := Demo.str;
     paramobj_attr := Demo.own_attr; operator_attr := Demo.operator_module |}.

(** [f = ParamObj(make_adder, t)] in [one_var]: node 0. *)
Definition with_adder : state := (new_ParamObj make_adder [VVar 0] [] Demo.one_var).2.
End Callables.

(** More stores for examples, over the runtime of [Demo]. *)
Module Scenes.
(** [M = ParamObj(positive, t)] with [t = -1] (node 0), whose build raises,
    and [ParamObj(four, t, M, M)] (node 1). *)
Definition failing_argument : state :=
  (new_ParamObj Demo.four [VVar 0; VParamObj 0; VParamObj 0] [] Demo.with_N_negative).2.

(** [x = ParamObj(Pulse, t)] (node 0), [x.duration] (node 1), and [x] built. *)
Definition proxy_of_built : state :=
  (build 0 (__getattr__ 0 "duration" Demo.with_pulse).2).2.

(** Two distinct variables with the same name [t], of values 5 and 6, and
    [ParamObj(operator.add, t, t')]: node 0. *)
Definition same_name : state :=
  (new_ParamObj (VBuiltin Badd) [VVar 0; VVar 1] []
     (mkState [] [mkVariable "t" 0 (VInt 5); mkVariable "t" 0 (VInt 6)] [] [])).2.
End Scenes.

(** * Properties *)

(** ** The store *)

Lemma wf_lookup (s : state) :
  wf s ↔ ∀ n p, nodes s !! n = Some p → node_wf n p.
Proof.
  unfold wf. rewrite Forall_lookup. split.
  - intros Hall n p Hp. apply (Hall n (n, p)).
    by rewrite list_lookup_imap, Hp.
  - intros Hall i [n p]. rewrite list_lookup_imap.
    destruct (nodes s !! i) as [q|] eqn:Hq; intros ?; simplify_eq/=. eauto.
Qed.

#[global] Instance same_structure_refl : Reflexive same_structure.
Proof. by intros s. Qed.

#[global] Instance same_structure_trans : Transitive same_structure.
Proof. intros s1 s2 s3 (?&?&?) (?&?&?). repeat split; congruence. Qed.

Lemma same_structure_length s s' :
  same_structure s s' → length (nodes s') = length (nodes s).
Proof.
  intros [Hsk _]. apply (f_equal length) in Hsk. by rewrite !length_fmap in Hsk.
Qed.

Lemma same_structure_lookup s s' n p :
  same_structure s s' → nodes s !! n = Some p →
  ∃ p', nodes s' !! n = Some p' ∧ skeleton p' = skeleton p.
Proof.
  intros [Hsk _] Hp.
  assert ((skeleton <$> nodes s') !! n = Some (skeleton p)) as Hn
    by (by rewrite Hsk, list_lookup_fmap, Hp).
  rewrite list_lookup_fmap in Hn.
  destruct (nodes s' !! n) as [p'|]; simpl in Hn; [|done].
  exists p'. split; [done|congruence].
Qed.

Lemma same_structure_sym s s' : same_structure s s' → same_structure s' s.
Proof. intros (?&?&?). by repeat split. Qed.

Lemma same_structure_wf s s' : same_structure s s' → wf s → wf s'.
Proof.
  intros Hss. rewrite !wf_lookup. intros Hwf n p' Hp'.
  destruct (same_structure_lookup s' s n p' (same_structure_sym _ _ Hss) Hp')
    as (p & Hp & Hsk).
  specialize (Hwf n p Hp). unfold node_wf in *.
  injection Hsk as Hc _ Ha Hk. by rewrite <-Hc, <-Ha, <-Hk.
Qed.

Lemma same_structure_var_count s s' x :
  same_structure s s' → var_count s' x = var_count s x.
Proof. intros (_&Hv&_). unfold var_count, var_object. by rewrite Hv. Qed.

Lemma same_structure_snapshot `{Runtime} s s' vars :
  same_structure s s' → snapshot s' vars = snapshot s vars.
Proof.
  intros Hss. unfold snapshot. apply map_fmap_ext. intros ???.
  by apply same_structure_var_count.
Qed.

Lemma same_structure_alter s n f :
  (∀ p, skeleton (f p) = skeleton p) → same_structure s (set_nodes (alter f n) s).
Proof.
  intros Hf. repeat split; simpl.
  apply list_eq. intros i. rewrite !list_lookup_fmap, list_lookup_alter.
  case_decide; [subst|done]. destruct (nodes s !! i); simpl; [by rewrite Hf|done].
Qed.

Lemma same_structure_logged `{Runtime} s obj a k : same_structure s (logged obj a k s).
Proof. by repeat split. Qed.

(** ** Argument binding *)

Lemma keyword_clash_None params k :
  keyword_clash params k = None ↔ Forall (λ key, key ∉ params) k.*1.
Proof.
  induction k as [|[key v] k IH]; simpl; [by split; [constructor|]|].
  case_decide as Hin.
  - split; [done|]. intros Hall. by apply Forall_cons in Hall as [? _].
  - rewrite IH. split; [by constructor|]. intros Hall. by apply Forall_cons in Hall as [_ ?].
Qed.

Lemma keyword_clash_Some params k key :
  keyword_clash params k = Some key → key ∈ params ∧ key ∈ k.*1.
Proof.
  induction k as [|[key' v] k IH]; simpl; [done|].
  case_decide as Hin.
  - intros [= <-]. split; [done|]. by left.
  - intros Hk. destruct (IH Hk) as [? ?]. split; [done|]. by right.
Qed.

Lemma keyword_clash_call k :
  keyword_clash init_params k = None → keyword_clash call_params k = None.
Proof.
  rewrite !keyword_clash_None. intros Hall. eapply Forall_impl; [exact Hall|].
  intros key Hkey Hin. apply Hkey.
  unfold call_params in Hin. apply list_elem_of_singleton in Hin as ->.
  unfold init_params. by left.
Qed.

Lemma new_ParamObj_bound c a k s :
  keyword_clash init_params k = None → new_ParamObj c a k s = allocate c a k s.
Proof. intros Hk. unfold new_ParamObj, bind_arguments, bind. by rewrite Hk. Qed.

Lemma new_ParamObj_clash c a k s key :
  keyword_clash init_params k = Some key →
  new_ParamObj c a k s = (Raise (multiple_values "__init__" key), s).
Proof. intros Hk. unfold new_ParamObj, bind_arguments, bind. by rewrite Hk. Qed.

(** Construction allocates, or raises and leaves the store as it is. *)
Lemma new_ParamObj_cases c a k s :
  new_ParamObj c a k s = allocate c a k s ∨ ∃ e, new_ParamObj c a k s = (Raise e, s).
Proof.
  destruct (keyword_clash init_params k) as [key|] eqn:Hk.
  - right. eexists. by apply new_ParamObj_clash.
  - left. by apply new_ParamObj_bound.
Qed.

Lemma call_unfold `{Runtime} s n a k :
  keyword_clash init_params k = None →
  __call__ n a k s =
  match __str__ (allocate (VParamObj n) a k s).2 (length (nodes s)) with
  | Ok r => (Ok (VParamObj (length (nodes s))),
             mkState (nodes s ++ [ParamObj_init s (VParamObj n) a k]) (variables_store s)
                     (call_log s) (warning_log s ++ [stray_call_warning r]))
  | Raise e => (Raise e, (allocate (VParamObj n) a k s).2)
  | Stuck => (Stuck, (allocate (VParamObj n) a k s).2)
  end.
Proof.
  intros Hk. unfold __call__. unfold bind at 1. unfold bind_arguments at 1.
  rewrite (keyword_clash_call k Hk). simpl. unfold bind at 1.
  rewrite (new_ParamObj_bound _ _ _ _ Hk). done.
Qed.

(** A keyword named [self] is refused by [__call__], and one named [cls]
    by the constructor it calls: the call raises and the store is as it
    was. *)
Lemma call_clash `{Runtime} s n a k :
  keyword_clash init_params k ≠ None →
  __call__ n a k s
  = (Raise (if decide ("self" ∈ k.*1) then multiple_values "__call__" "self"
            else multiple_values "__init__" "cls"), s).
Proof.
  intros Hk. unfold __call__. unfold bind at 1. unfold bind_arguments at 1.
  destruct (keyword_clash call_params k) as [key|] eqn:Hcall.
  - apply keyword_clash_Some in Hcall as [Hkey Hin].
    unfold call_params in Hkey. apply list_elem_of_singleton in Hkey as ->.
    by rewrite decide_True.
  - simpl. unfold bind at 1.
    destruct (keyword_clash init_params k) as [key|] eqn:Hinit; [|done].
    rewrite (new_ParamObj_clash _ _ _ _ key Hinit).
    apply keyword_clash_None in Hcall.
    assert ("self" ∉ k.*1) as Hself.
    { intros Hin. rewrite Forall_forall in Hcall. apply (Hcall _ Hin).
      unfold call_params. by left. }
    rewrite decide_False by done.
    apply keyword_clash_Some in Hinit as [Hkey Hin].
    unfold init_params in Hkey.
    apply elem_of_cons in Hkey as [->|Hkey]; [done|].
    by apply list_elem_of_singleton in Hkey as ->.
Qed.

Lemma call_cases `{Runtime} s n a k :
  (__call__ n a k s).2 = s
  ∨ (keyword_clash init_params k = None
     ∧ nodes (__call__ n a k s).2 = nodes s ++ [ParamObj_init s (VParamObj n) a k]).
Proof.
  destruct (keyword_clash init_params k) as [key|] eqn:Hk.
  - left. by rewrite call_clash by by rewrite Hk.
  - right. split; [done|]. rewrite call_unfold by done. by destruct (__str__ _ _).
Qed.

(** ** Reasoning rules for the monad *)


Section BindRules.
Context {A B : Type} (I : state → Prop).
Implicit Types (m : M A) (k : A → M B).

Lemma inv_bind m k : inv I m → (∀ a, inv I (k a)) → inv I (bind m k).
Proof.
  intros Hm Hk s Hs. unfold bind. specialize (Hm s Hs).
  destruct (m s) as [[a|e|] s1]; simpl in *; auto. by apply Hk.
Qed.

Lemma safe_bind m k : safe I m → (∀ a, safe I (k a)) → safe I (bind m k).
Proof.
  intros Hm Hk s Hs. unfold bind. destruct (Hm s Hs) as [Hns Hs1].
  destruct (m s) as [[a|e|] s1]; simpl in *; auto. by apply Hk.
Qed.

Lemma agree_bind m m' k k' :
  agree I m m' → (∀ a, agree I (k a) (k' a)) → agree I (bind m k) (bind m' k').
Proof.
  intros Hm Hk s Hs. unfold bind. destruct (Hm s Hs) as [Heq Hs1]. rewrite <-Heq.
  destruct (m s) as [[a|e|] s1]; simpl in *; auto. by apply Hk.
Qed.

Lemma extends_bind m m' k k' :
  extends m m' → (∀ a, extends (k a) (k' a)) → extends (bind m k) (bind m' k').
Proof.
  intros Hm Hk s. unfold bind. specialize (Hm s).
  destruct (m s) as [[a|e|] s1] eqn:Hms; simpl in *; intros Hns.
  - rewrite Hm by done. by apply Hk.
  - by rewrite Hm.
  - done.
Qed.
End BindRules.

Section MapRules.
Context {A B : Type} (I : state → Prop).

Lemma inv_mapM_st (f : A → M B) (l : list A) :
  (∀ a, a ∈ l → inv I (f a)) → inv I (mapM_st f l).
Proof.
  induction l as [|a l IH]; intros Hf; simpl; [by intros s|].
  apply inv_bind; [apply Hf; left|]. intros b.
  apply inv_bind; [|by intros bs s].
  apply IH. intros a' Ha'. apply Hf. by right.
Qed.

Lemma safe_mapM_st (f : A → M B) (l : list A) :
  (∀ a, a ∈ l → safe I (f a)) → safe I (mapM_st f l).
Proof.
  induction l as [|a l IH]; intros Hf; simpl; [by intros s|].
  apply safe_bind; [apply Hf; left|]. intros b.
  apply safe_bind; [|by intros bs s].
  apply IH. intros a' Ha'. apply Hf. by right.
Qed.

Lemma agree_mapM_st (f f' : A → M B) (l : list A) :
  (∀ a, a ∈ l → agree I (f a) (f' a)) → agree I (mapM_st f l) (mapM_st f' l).
Proof.
  induction l as [|a l IH]; intros Hf; simpl; [by intros s|].
  apply agree_bind; [apply Hf; left|]. intros b.
  apply agree_bind; [|by intros bs s].
  apply IH. intros a' Ha'. apply Hf. by right.
Qed.

Lemma extends_mapM_st (f f' : A → M B) (l : list A) :
  (∀ a, extends (f a) (f' a)) → extends (mapM_st f l) (mapM_st f' l).
Proof.
  intros Hf. induction l as [|a l IH]; simpl; [by intros s|].
  apply extends_bind; [done|]. intros b.
  apply extends_bind; [done|]. by intros bs s.
Qed.
End MapRules.

Lemma extends_refl {A} (m : M A) : extends m m.
Proof. by intros s. Qed.

Lemma agree_refl {A} (I : state → Prop) (m : M A) : inv I m → agree I m m.
Proof. intros Hm s Hs. split; [done|by apply Hm]. Qed.


(** ** build: what it preserves, and that its fuel is enough *)

Section BuildBasics.
Context `{Runtime}.

Lemma skeleton_with_vars_state vs p : skeleton (with_vars_state vs p) = skeleton p.
Proof. done. Qed.

Lemma inv_build_value I g a : (∀ m, a = VParamObj m → inv I (g m)) → inv I (build_value g a).
Proof. intros Hg. destruct a; simpl; try (by intros ??); by apply Hg. Qed.

Lemma inv_build_kwarg I g kv :
  (∀ m, kv.2 = VParamObj m → inv I (g m)) → inv I (build_kwarg g kv).
Proof.
  intros Hg. apply inv_bind; [by apply inv_build_value|]. by intros v ??.
Qed.

Lemma inv_resolve_cls I g c : (∀ m, c = VParamObj m → inv I (g m)) → inv I (resolve_cls g c).
Proof. intros Hg. destruct c; simpl; try (by intros ??); by apply Hg. Qed.

(** The cache miss preserves an invariant that the two field updates,
    the call and the builds of the referenced nodes preserve. *)
Lemma inv_rebuild I g n self vs :
  (∀ f, (∀ p, skeleton (f p) = skeleton p) → inv I (update_node n f)) →
  (∀ obj a k, inv I (invoke obj a k)) →
  (∀ m, VParamObj m ∈ cls self :: args self ++ (kwargs self).*2 → inv I (g m)) →
  inv I (rebuild g n self vs).
Proof.
  intros Hupd Hinv Hg. unfold rebuild.
  apply inv_bind; [by apply Hupd|]; intros _.
  apply inv_bind; [|intros args_].
  { apply inv_mapM_st. intros a Ha. apply inv_build_value. intros m ->.
    apply Hg. right. apply elem_of_app. by left. }
  apply inv_bind; [|intros kwargs_].
  { apply inv_mapM_st. intros kv Hkv. apply inv_build_kwarg. intros m Hm.
    apply Hg. right. apply elem_of_app. right. rewrite <-Hm.
    by apply list_elem_of_fmap_2. }
  apply inv_bind; [|intros obj].
  { apply inv_resolve_cls. intros m Hm. apply Hg. rewrite Hm. left. }
  apply inv_bind; [by apply Hinv|]; intros r.
  by apply Hupd.
Qed.

Lemma build_fuel_unfold fuel n s :
  build_fuel (S fuel) n s =
  match nodes s !! n with
  | None => (Stuck, s)
  | Some self =>
    if decide (snapshot s (_variables self) ≠ _vars_state self) then
      match rebuild (build_fuel fuel) n self (snapshot s (_variables self)) s with
      | (Ok _, s') =>
        match nodes s' !! n with
        | Some self' => (Ok (_instance self'), s')
        | None => (Stuck, s')
        end
      | (Raise e, s') => (Raise e, s')
      | (Stuck, s') => (Stuck, s')
      end
    else (Ok (_instance self), s)
  end.
Proof.
  simpl. unfold bind at 1. unfold get_node at 1.
  destruct (nodes s !! n) as [self|] eqn:Hn; [|done].
  unfold bind at 1. case_decide.
  - destruct (rebuild _ _ _ _ s) as [[[]|e|] s']; try done.
    unfold bind, get_node. by destruct (nodes s' !! n).
  - simpl. unfold bind, get_node. by rewrite Hn.
Qed.

(** F1: building changes only what nodes cache, and the call log. *)
Lemma inv_update_node_structure s0 n f :
  (∀ p, skeleton (f p) = skeleton p) → inv (same_structure s0) (update_node n f).
Proof.
  intros Hf s Hs. simpl. etrans; [done|]. by apply same_structure_alter.
Qed.

Lemma inv_invoke_structure s0 obj a k : inv (same_structure s0) (invoke obj a k).
Proof.
  intros s Hs. unfold invoke. etrans; [done|].
  destruct (py_call obj a k); apply same_structure_logged.
Qed.

Lemma build_fuel_structure fuel : ∀ s0 n, inv (same_structure s0) (build_fuel fuel n).
Proof.
  induction fuel as [|fuel IH]; intros s0 n s Hs; [done|].
  rewrite build_fuel_unfold.
  destruct (nodes s !! n) as [self|]; [|done].
  case_decide; [|done].
  pose proof (inv_rebuild (same_structure s0) (build_fuel fuel) n self
    (snapshot s (_variables self)) (inv_update_node_structure s0 n)
    (inv_invoke_structure s0) (λ m _, IH s0 m) s Hs) as Hr.
  destruct (rebuild _ _ _ _ s) as [[[]|e|] s']; simpl in *; try done.
  by destruct (nodes s' !! n).
Qed.

Lemma build_structure n s : same_structure s (build n s).2.
Proof. by apply build_fuel_structure. Qed.
End BuildBasics.

Section BuildFuel.
Context `{Runtime}.

Lemma node_wf_refs n self m :
  node_wf n self → VParamObj m ∈ cls self :: args self ++ (kwargs self).*2 → m < n.
Proof.
  intros (Hc & Ha & Hk) Hin.
  apply elem_of_cons in Hin as [Hin|Hin]; [by rewrite <-Hin in Hc|].
  apply elem_of_app in Hin as [Hin|Hin].
  - rewrite Forall_forall in Ha. apply (Ha _ Hin).
  - rewrite Forall_forall in Hk. apply (Hk _ Hin).
Qed.

Lemma safe_build_value I g a : (∀ m, a = VParamObj m → safe I (g m)) → safe I (build_value g a).
Proof. intros Hg. destruct a; simpl; try (by intros ??); by apply Hg. Qed.

Lemma safe_rebuild I g n self vs :
  (∀ f, (∀ p, skeleton (f p) = skeleton p) → inv I (update_node n f)) →
  (∀ obj a k, inv I (invoke obj a k)) →
  (∀ m, VParamObj m ∈ cls self :: args self ++ (kwargs self).*2 → safe I (g m)) →
  safe I (rebuild g n self vs).
Proof.
  intros Hupd Hinv Hg. unfold rebuild.
  apply safe_bind; [intros s Hs; split; [done|by apply Hupd]|]; intros _.
  apply safe_bind; [|intros args_].
  { apply safe_mapM_st. intros a Ha. apply safe_build_value. intros m ->.
    apply Hg. right. apply elem_of_app. by left. }
  apply safe_bind; [|intros kwargs_].
  { apply safe_mapM_st. intros kv Hkv.
    apply safe_bind; [|by intros v ??].
    apply safe_build_value. intros m Hm.
    apply Hg. right. apply elem_of_app. right. rewrite <-Hm.
    by apply list_elem_of_fmap_2. }
  apply safe_bind; [|intros obj].
  { destruct (cls self) eqn:Hc; simpl; try (by intros ??). apply Hg. left. }
  apply safe_bind; [|intros r].
  { intros s Hs. split; [|by apply Hinv]. unfold invoke. by destruct (py_call _ _ _). }
  intros s Hs; split; [done|by apply Hupd].
Qed.

(** F3: in a well-formed store, more fuel than the index is enough. *)
Lemma build_fuel_safe fuel : ∀ s0 n,
  wf s0 → n < length (nodes s0) → n < fuel → safe (same_structure s0) (build_fuel fuel n).
Proof.
  induction fuel as [|fuel IH]; intros s0 n Hwf Hlen Hfuel s Hs; [lia|].
  rewrite build_fuel_unfold.
  assert (length (nodes s) = length (nodes s0)) as Hl by by apply same_structure_length.
  destruct (nodes s !! n) as [self|] eqn:Hn;
    [|apply lookup_ge_None in Hn; lia].
  case_decide; [|done].
  assert (node_wf n self) as Hself.
  { eapply wf_lookup; [|done]. by eapply same_structure_wf. }
  destruct (safe_rebuild (same_structure s0) (build_fuel fuel) n self
    (snapshot s (_variables self)) (inv_update_node_structure s0 n)
    (inv_invoke_structure s0)) with (s := s) as [Hns Hs']; [|done|].
  { intros m Hm. pose proof (node_wf_refs _ _ _ Hself Hm). apply IH; [done|lia..]. }
  destruct (rebuild _ _ _ _ s) as [[[]|e|] s']; simpl in *; try done.
  assert (length (nodes s') = length (nodes s0)) as Hl' by by apply same_structure_length.
  destruct (nodes s' !! n) eqn:Hn'; [done|]. apply lookup_ge_None in Hn'. lia.
Qed.

Lemma extends_build_value g g' a :
  (∀ m, extends (g m) (g' m)) → extends (build_value g a) (build_value g' a).
Proof. intros Hg. destruct a; simpl; try apply extends_refl. apply Hg. Qed.

Lemma extends_rebuild g g' n self vs :
  (∀ m, extends (g m) (g' m)) → extends (rebuild g n self vs) (rebuild g' n self vs).
Proof.
  intros Hg. unfold rebuild.
  apply extends_bind; [apply extends_refl|]; intros _.
  apply extends_bind; [|intros args_].
  { apply extends_mapM_st. intros a. by apply extends_build_value. }
  apply extends_bind; [|intros kwargs_].
  { apply extends_mapM_st. intros kv.
    apply extends_bind; [by apply extends_build_value|]. intros v. apply extends_refl. }
  apply extends_bind; [|intros obj; apply extends_refl].
  destruct (cls self); simpl; try apply extends_refl. apply Hg.
Qed.

(** F4: whatever is computed with some fuel is computed with more. *)
Lemma build_fuel_mono fuel : ∀ fuel' n,
  fuel ≤ fuel' → extends (build_fuel fuel n) (build_fuel fuel' n).
Proof.
  induction fuel as [|fuel IH]; intros fuel' n Hle s Hns; [done|].
  destruct fuel' as [|fuel']; [lia|].
  rewrite !build_fuel_unfold in *.
  destruct (nodes s !! n) as [self|]; [|done].
  case_decide; [|done].
  rewrite (extends_rebuild (build_fuel fuel) (build_fuel fuel') n self); [done| |].
  - intros m. apply IH. lia.
  - by destruct (rebuild _ _ _ _ s) as [[[]|e|] s'].
Qed.

(** F5 *)
Lemma build_fuel_enough fuel n s :
  wf s → n < length (nodes s) → n < fuel → build_fuel fuel n s = build n s.
Proof.
  intros Hwf Hlen Hfuel. unfold build.
  apply (build_fuel_mono (S n) fuel n ltac:(lia) s).
  by apply (build_fuel_safe (S n) s n Hwf Hlen ltac:(lia) s).
Qed.

Lemma build_safe n s :
  wf s → n < length (nodes s) → (build n s).1 ≠ Stuck.
Proof. intros Hwf Hlen. by apply (build_fuel_safe (S n) s n Hwf Hlen ltac:(lia) s). Qed.

(** F2: building node [n] leaves the nodes after it untouched. *)
Lemma build_fuel_frame fuel : ∀ s0 n k,
  wf s0 → n < k → inv (framed s0 k) (build_fuel fuel n).
Proof.
  induction fuel as [|fuel IH]; intros s0 n k Hwf Hk s Hs; [done|].
  rewrite build_fuel_unfold.
  destruct (nodes s !! n) as [self|] eqn:Hn; [|done].
  case_decide; [|done].
  assert (node_wf n self) as Hself.
  { eapply wf_lookup; [|done]. eapply same_structure_wf; [apply Hs|done]. }
  assert (inv (framed s0 k) (rebuild (build_fuel fuel) n self
    (snapshot s (_variables self)))) as Hr.
  { apply inv_rebuild.
    - intros f Hf s1 [Hss Hfr]; split; [by apply inv_update_node_structure|].
      intros j Hj; simpl. rewrite list_lookup_alter_ne by lia. by apply Hfr.
    - intros obj a k0 s1 [Hss Hfr]; split; [by apply inv_invoke_structure|].
      unfold invoke; by destruct (py_call obj a k0).
    - intros m Hm. pose proof (node_wf_refs _ _ _ Hself Hm). apply IH; [done|lia]. }
  specialize (Hr s Hs).
  destruct (rebuild _ _ _ _ s) as [[[]|e|] s']; simpl in *; try done.
  by destruct (nodes s' !! n).
Qed.
End BuildFuel.

(** ** The two paths of build *)

Section BuildPaths.
Context `{Runtime}.

Lemma agree_rebuild I g g' n self vs :
  (∀ f, (∀ p, skeleton (f p) = skeleton p) → inv I (update_node n f)) →
  (∀ obj a k, inv I (invoke obj a k)) →
  (∀ m, VParamObj m ∈ cls self :: args self ++ (kwargs self).*2 → agree I (g m) (g' m)) →
  agree I (rebuild g n self vs) (rebuild g' n self vs).
Proof.
  intros Hupd Hinv Hg. unfold rebuild.
  apply agree_bind; [by apply agree_refl, Hupd|]; intros _.
  apply agree_bind; [|intros args_].
  { apply agree_mapM_st. intros a Ha.
    destruct a; simpl; try (by apply agree_refl; intros ??).
    apply Hg. right. apply elem_of_app. by left. }
  apply agree_bind; [|intros kwargs_].
  { apply agree_mapM_st. intros kv Hkv.
    apply agree_bind; [|by intros v; apply agree_refl; intros ??].
    destruct (kv.2) eqn:Hkv2; simpl; try (by apply agree_refl; intros ??).
    apply Hg. right. apply elem_of_app. right. rewrite <-Hkv2.
    by apply list_elem_of_fmap_2. }
  apply agree_bind; [|intros obj].
  { destruct (cls self) eqn:Hc; simpl; try (by apply agree_refl; intros ??).
    apply Hg. left. }
  apply agree_bind; [by apply agree_refl, Hinv|]; intros r.
  by apply agree_refl, Hupd.
Qed.

(** Inside [build], the referenced nodes are built as [build] builds them. *)
Lemma rebuild_canonical s n self vs :
  wf s → nodes s !! n = Some self →
  rebuild (build_fuel n) n self vs s = rebuild build n self vs s.
Proof.
  intros Hwf Hn.
  assert (node_wf n self) as Hself by by eapply wf_lookup.
  apply lookup_lt_Some in Hn as Hlen.
  apply (agree_rebuild (same_structure s)); [| | |done].
  - apply inv_update_node_structure.
  - apply inv_invoke_structure.
  - intros m Hm s1 Hs1. pose proof (node_wf_refs _ _ _ Hself Hm).
    split; [|by apply build_fuel_structure].
    apply build_fuel_enough; [by eapply same_structure_wf| |done].
    rewrite (same_structure_length s s1) by done. lia.
Qed.

(** The memoisation fast path. *)
Lemma build_hit s n self :
  nodes s !! n = Some self →
  snapshot s (_variables self) = _vars_state self →
  build n s = (Ok (_instance self), s).
Proof.
  intros Hn Heq. unfold build. rewrite build_fuel_unfold, Hn.
  case_decide; [done|done].
Qed.

(** The cache miss. *)
Lemma build_miss s n self :
  wf s → nodes s !! n = Some self →
  snapshot s (_variables self) ≠ _vars_state self →
  build n s =
  match rebuild build n self (snapshot s (_variables self)) s with
  | (Ok _, s') =>
    match nodes s' !! n with
    | Some self' => (Ok (_instance self'), s')
    | None => (Stuck, s')
    end
  | (Raise e, s') => (Raise e, s')
  | (Stuck, s') => (Stuck, s')
  end.
Proof.
  intros Hwf Hn Hne. unfold build. rewrite build_fuel_unfold, Hn.
  case_decide; [|done]. by rewrite rebuild_canonical.
Qed.

Lemma framed_refl s k : framed s k s.
Proof. by split. Qed.

Lemma inv_build_framed s0 k m : wf s0 → m < k → inv (framed s0 k) (build m).
Proof. intros. by apply build_fuel_frame. Qed.

(** Building what a node refers to does not touch the node itself. *)
Lemma inv_children_framed s0 n self :
  wf s0 → node_wf n self →
  inv (framed s0 n) (mapM_st (build_value build) (args self))
  ∧ inv (framed s0 n) (mapM_st (build_kwarg build) (kwargs self))
  ∧ inv (framed s0 n) (resolve_cls build (cls self)).
Proof.
  intros Hwf Hself.
  assert (∀ m, VParamObj m ∈ cls self :: args self ++ (kwargs self).*2 →
               inv (framed s0 n) (build m)) as Hg.
  { intros m Hm. apply inv_build_framed; [done|]. by eapply node_wf_refs. }
  split_and!.
  - apply inv_mapM_st. intros a Ha. apply inv_build_value. intros m ->.
    apply Hg. right. apply elem_of_app. by left.
  - apply inv_mapM_st. intros kv Hkv. apply inv_build_kwarg. intros m Hm.
    apply Hg. right. apply elem_of_app. right. rewrite <-Hm.
    by apply list_elem_of_fmap_2.
  - apply inv_resolve_cls. intros m Hm. apply Hg. rewrite Hm. left.
Qed.

Lemma wf_update_node s n f :
  (∀ p, skeleton (f p) = skeleton p) → wf s → wf (set_nodes (alter f n) s).
Proof. intros Hf. apply same_structure_wf. by apply same_structure_alter. Qed.

(** What a cache miss does to the node, by outcome. *)
Lemma rebuild_node s n self vs :
  wf s → nodes s !! n = Some self →
  match rebuild build n self vs s with
  | (Ok _, s') => ∃ r, nodes s' !! n = Some (with_instance r (with_vars_state vs self))
  | (Raise _, s') => nodes s' !! n = Some (with_vars_state vs self)
  | (Stuck, _) => True
  end.
Proof.
  intros Hwf Hn.
  assert (node_wf n self) as Hself by by eapply wf_lookup.
  set (s1 := set_nodes (alter (with_vars_state vs) n) s).
  assert (wf s1) as Hwf1 by by apply wf_update_node.
  assert (nodes s1 !! n = Some (with_vars_state vs self)) as Hn1.
  { simpl. by rewrite list_lookup_alter_eq, Hn. }
  destruct (inv_children_framed s1 n self Hwf1 Hself) as (Ha & Hk & Hc).
  unfold rebuild, bind.
  change (update_node n (with_vars_state vs) s) with (Ok (), s1). cbv iota.
  pose proof (Ha s1 (framed_refl _ _)) as Hfa.
  destruct (mapM_st _ (args self) s1) as [[args_|e|] sa]; simpl in Hfa;
    [|simpl; by rewrite (proj2 Hfa n)|done].
  pose proof (Hk sa Hfa) as Hfb.
  destruct (mapM_st _ (kwargs self) sa) as [[kwargs_|e|] sb]; simpl in Hfb;
    [|simpl; by rewrite (proj2 Hfb n)|done].
  pose proof (Hc sb Hfb) as Hfc.
  destruct (resolve_cls _ (cls self) sb) as [[obj|e|] sc]; simpl in Hfc;
    [|simpl; by rewrite (proj2 Hfc n)|done].
  unfold invoke. destruct (py_call obj args_ kwargs_) as [e|r]; simpl.
  - by rewrite (proj2 Hfc n).
  - exists r. by rewrite list_lookup_alter_eq, (proj2 Hfc n), Hn1.
Qed.

(** After any call of [build] on a node, the node holds the snapshot of
    the counters as they were at the call. *)
Lemma build_commits_snapshot s n self :
  wf s → nodes s !! n = Some self →
  ∃ self', nodes (build n s).2 !! n = Some self'
    ∧ skeleton self' = skeleton self
    ∧ _vars_state self' = snapshot s (_variables self)
    ∧ (∀ r, (build n s).1 = Ok r → _instance self' = r)
    ∧ (∀ e, (build n s).1 = Raise e → _instance self' = _instance self).
Proof.
  intros Hwf Hn.
  destruct (decide (snapshot s (_variables self) = _vars_state self)) as [Heq|Hne].
  - rewrite (build_hit s n self Hn Heq). simpl. exists self.
    split_and!; [done..| |done]. by intros r [= <-].
  - pose proof (build_safe n s Hwf (lookup_lt_Some _ _ _ Hn)) as Hsafe.
    rewrite (build_miss s n self Hwf Hn Hne) in *.
    pose proof (rebuild_node s n self (snapshot s (_variables self)) Hwf Hn) as Hnode.
    destruct (rebuild _ _ _ _ s) as [[[]|e|] s']; simpl in *; [| |done].
    + destruct Hnode as [r Hr]. rewrite Hr in *. simpl.
      eexists; split_and!; [done..| |done]. by intros r' [= <-].
    + eexists; split_and!; [done..]. 
Qed.
End BuildPaths.

(** ** Memoisation *)

Section Memoisation.
Context `{Runtime}.

Lemma snapshot_lookup s vars key :
  snapshot s vars !! key = var_count s <$> vars !! key.
Proof. unfold snapshot. apply lookup_fmap. Qed.

(** The store a cache miss leaves when everything it runs returns. *)
Lemma rebuild_returns s n self vs args_ kwargs_ obj r sa sb sc :
  mapM_st (build_value build) (args self)
          (set_nodes (alter (with_vars_state vs) n) s) = (Ok args_, sa) →
  mapM_st (build_kwarg build) (kwargs self) sa = (Ok kwargs_, sb) →
  resolve_cls build (cls self) sb = (Ok obj, sc) →
  py_call obj args_ kwargs_ = inr r →
  rebuild build n self vs s
  = (Ok (), set_nodes (alter (with_instance r) n) (logged obj args_ kwargs_ sc)).
Proof.
  intros Ha Hk Hc Hcall. unfold rebuild, bind.
  change (update_node n (with_vars_state vs) s)
    with (Ok (), set_nodes (alter (with_vars_state vs) n) s). cbv iota.
  rewrite Ha, Hk, Hc. unfold invoke. by rewrite Hcall.
Qed.

Lemma rebuild_returns_node s n self vs args_ kwargs_ obj sa sb sc :
  wf s → nodes s !! n = Some self →
  mapM_st (build_value build) (args self)
          (set_nodes (alter (with_vars_state vs) n) s) = (Ok args_, sa) →
  mapM_st (build_kwarg build) (kwargs self) sa = (Ok kwargs_, sb) →
  resolve_cls build (cls self) sb = (Ok obj, sc) →
  nodes sc !! n = Some (with_vars_state vs self).
Proof.
  intros Hwf Hn Ha Hk Hc.
  assert (node_wf n self) as Hself by by eapply wf_lookup.
  set (s1 := set_nodes (alter (with_vars_state vs) n) s) in *.
  assert (wf s1) as Hwf1 by by apply wf_update_node.
  destruct (inv_children_framed s1 n self Hwf1 Hself) as (Ia & Ik & Ic).
  pose proof (Ia s1 (framed_refl _ _)) as Hfa. rewrite Ha in Hfa. simpl in Hfa.
  pose proof (Ik sa Hfa) as Hfb. rewrite Hk in Hfb. simpl in Hfb.
  pose proof (Ic sb Hfb) as Hfc. rewrite Hc in Hfc. simpl in Hfc.
  rewrite (proj2 Hfc n) by done. simpl. by rewrite list_lookup_alter_eq, Hn.
Qed.
End Memoisation.

(** C1. Once a node has been built successfully: if none of the version
    counters of its variables changed since then, the next [build] returns
    the same cached object and leaves the store as it is, so that no
    callable is invoked; if the counter of one of its variables was
    incremented, the next [build] takes the cache-miss path: it builds the
    arguments and the target again and invokes the resolved callable, and
    when these return it returns and caches what the callable returns. *)
Theorem build_memoized `{Runtime} (s0 s1 : state) (n : node_id) (r : value) (p : ParamObj) :
  wf s0 →
  build n s0 = (Ok r, s1) →
  nodes s1 !! n = Some p →
  (∀ s2 : state,
     nodes s2 !! n = Some p →
     (∀ key x, _variables p !! key = Some x → var_count s2 x = var_count s1 x) →
     build n s2 = (Ok r, s2))
  ∧
  (∀ (s2 : state) key x,
     wf s2 → nodes s2 !! n = Some p →
     _variables p !! key = Some x → (var_count s1 x < var_count s2 x)%Z →
     build n s2
     = match rebuild build n p (snapshot s2 (_variables p)) s2 with
       | (Ok _, s3) =>
         match nodes s3 !! n with
         | Some p3 => (Ok (_instance p3), s3)
         | None => (Stuck, s3)
         end
       | (Raise e, s3) => (Raise e, s3)
       | (Stuck, s3) => (Stuck, s3)
       end
     ∧
     ∀ args_ kwargs_ obj r' sa sb sc,
       mapM_st (build_value build) (args p)
         (set_nodes (alter (with_vars_state (snapshot s2 (_variables p))) n) s2)
         = (Ok args_, sa) →
       mapM_st (build_kwarg build) (kwargs p) sa = (Ok kwargs_, sb) →
       resolve_cls build (cls p) sb = (Ok obj, sc) →
       py_call obj args_ kwargs_ = inr r' →
       ∃ s3, build n s2 = (Ok r', s3)
             ∧ call_log s3 = call_log sc ++ [mkInvocation obj args_ kwargs_]
             ∧ nodes s3 !! n
               = Some (with_instance r' (with_vars_state (snapshot s2 (_variables p)) p))).
Proof.
  intros Hwf Hbuild Hp.
  assert (is_Some (nodes s0 !! n)) as [p0 Hp0].
  { destruct (nodes s0 !! n) eqn:Hn0; [done|].
    unfold build in Hbuild. rewrite build_fuel_unfold, Hn0 in Hbuild. done. }
  destruct (build_commits_snapshot s0 n p0 Hwf Hp0) as (p' & Hp' & Hsk & Hvs & Hinst & _).
  rewrite Hbuild in Hp', Hinst. simpl in Hp', Hinst.
  assert (p' = p) as -> by congruence.
  assert (_variables p = _variables p0) as Hvars by (by injection Hsk).
  assert (same_structure s0 s1) as Hss.
  { pose proof (build_structure n s0) as Hs. by rewrite Hbuild in Hs. }
  assert (_vars_state p = snapshot s1 (_variables p)) as Hsnap.
  { by rewrite Hvs, Hvars, (same_structure_snapshot s0 s1). }
  specialize (Hinst r eq_refl).
  split.
  - intros s2 Hp2 Hsame. rewrite <-Hinst. apply build_hit; [done|].
    rewrite Hsnap. unfold snapshot. apply map_fmap_ext. intros key x Hx. by eapply Hsame.
  - intros s2 key x Hwf2 Hp2 Hx Hlt.
    assert (snapshot s2 (_variables p) ≠ _vars_state p) as Hne.
    { intros Heq. rewrite Hsnap in Heq. apply (f_equal (.!! key)) in Heq.
      rewrite !snapshot_lookup, Hx in Heq. simpl in Heq. injection Heq. lia. }
    rewrite (build_miss s2 n p Hwf2 Hp2 Hne). split; [done|].
    intros args_ kwargs_ obj r' sa sb sc Ha Hk Hc Hcall.
    rewrite (rebuild_returns _ _ _ _ _ _ _ _ _ _ _ Ha Hk Hc Hcall).
    pose proof (rebuild_returns_node _ _ _ _ _ _ _ _ _ _ Hwf2 Hp2 Ha Hk Hc) as Hnc.
    assert (nodes (set_nodes (alter (with_instance r') n) (logged obj args_ kwargs_ sc)) !! n
            = Some (with_instance r' (with_vars_state (snapshot s2 (_variables p)) p))) as Hfin.
    { simpl. by rewrite list_lookup_alter_eq, Hnc. }
    rewrite Hfin. eexists. split_and!; [done|done|done].
Qed.

Lemma build_memoized_witness :
  let s1 := (build 0 Demo.with_N).2 in
  let s2 := Demo.assign 0 (VInt 7) s1 in
  build 0 Demo.with_N = (Ok (VInt 5), s1)
  ∧ build 0 s1 = (Ok (VInt 5), s1)
  ∧ ∃ s3, build 0 s2 = (Ok (VInt 7), s3)
          ∧ call_log s3 = call_log s2 ++ [mkInvocation Demo.positive [VInt 7] []]
          ∧ nodes s3 !! 0
            = Some (with_instance (VInt 7)
                      (with_vars_state (snapshot s2 (_variables Demo.N_built)) Demo.N_built)).
Proof.
  intros s1 s2.
  assert (wf Demo.with_N) as Hwf by compute_done.
  assert (build 0 Demo.with_N = (Ok (VInt 5), s1)) as Hbuild by (vm_compute; reflexivity).
  assert (nodes s1 !! 0 = Some Demo.N_built) as Hp by (vm_compute; reflexivity).
  destruct (build_memoized Demo.with_N s1 0 (VInt 5) Demo.N_built Hwf Hbuild Hp)
    as [Hsame Hchanged].
  split; [exact Hbuild|]. split.
  - apply Hsame; [exact Hp|]. intros key x _. reflexivity.
  - set (s2' := set_nodes
        (alter (with_vars_state (snapshot s2 (_variables Demo.N_built))) 0) s2).
    assert (wf s2) as Hwf2 by compute_done.
    assert (nodes s2 !! 0 = Some Demo.N_built) as Hp2 by (vm_compute; reflexivity).
    assert (_variables Demo.N_built !! "t" = Some 0) as Hx by (vm_compute; reflexivity).
    assert (var_count s1 0 < var_count s2 0)%Z as Hlt by (vm_compute; reflexivity).
    destruct (proj2 (Hchanged s2 "t" 0 Hwf2 Hp2 Hx Hlt)
                [VInt 7] [] Demo.positive (VInt 7) s2' s2' s2')
      as (s3 & Hb & Hl & Hn); try (vm_compute; reflexivity).
    exists s3. split; [exact Hb|]. split; [exact Hl|exact Hn].
Defined.

(** ** Nodes without variables, and failed builds *)

(** The snapshot of no variables is the snapshot a new node starts with. *)
Lemma build_empty_snapshot `{Runtime} (s : state) (n : node_id) (p : ParamObj) :
  nodes s !! n = Some p → _variables p = ∅ → _vars_state p = ∅ →
  build n s = (Ok (_instance p), s).
Proof.
  intros Hn Hvars Hvs. apply (build_hit s n p Hn).
  rewrite Hvars, Hvs. unfold snapshot. apply fmap_empty.
Qed.

Lemma build_new_without_variables `{Runtime} (s : state) (cls0 : value)
    (args0 : list value) (kwargs0 : list (string * value)) (n : node_id) (s' : state) :
  _variables (ParamObj_init s cls0 args0 kwargs0) = ∅ →
  nodes s' !! n = Some (ParamObj_init s cls0 args0 kwargs0) →
  build n s' = (Ok VNone, s').
Proof. intros Hempty Hn. by apply (build_empty_snapshot s' n _ Hn). Qed.

(** No build, of the node or of another one, changes a node that has no
    variables and holds the empty snapshot. *)
Lemma inv_never_built `{Runtime} (n : node_id) (p : ParamObj) fuel :
  _variables p = ∅ → _vars_state p = ∅ →
  ∀ m, inv (λ s, nodes s !! n = Some p) (build_fuel fuel m).
Proof.
  intros Hvars Hvs. induction fuel as [|fuel IH]; intros m s Hs; [done|].
  rewrite build_fuel_unfold.
  destruct (nodes s !! m) as [self|] eqn:Hm; [|done].
  case_decide as Hmiss; [|done].
  assert (m ≠ n) as Hne.
  { intros ->. apply Hmiss. assert (self = p) as -> by congruence.
    rewrite Hvars, Hvs. unfold snapshot. apply fmap_empty. }
  assert (inv (λ s, nodes s !! n = Some p)
              (rebuild (build_fuel fuel) m self (snapshot s (_variables self)))) as Hr.
  { apply inv_rebuild.
    - intros f _ s1 Hs1. simpl. by rewrite list_lookup_alter_ne.
    - intros obj a k s1 Hs1. unfold invoke. by destruct (py_call obj a k).
    - intros m' _. apply IH. }
  specialize (Hr s Hs).
  destruct (rebuild _ _ _ _ s) as [[[]|e|] s']; simpl in *; try done.
  by destruct (nodes s' !! m).
Qed.

Lemma exec_keeps_never_built `{Runtime} `{Serializer} (op : operation) (s : state)
    (n : node_id) (p : ParamObj) :
  _variables p = ∅ → _vars_state p = ∅ →
  nodes s !! n = Some p → nodes (exec op s) !! n = Some p.
Proof.
  intros Hvars Hvs Hn.
  assert (∀ c a k, nodes (new_ParamObj c a k s).2 !! n = Some p) as Hnew.
  { intros c a k. destruct (new_ParamObj_cases c a k s) as [->|[e ->]]; [|done].
    simpl. by apply lookup_app_l_Some. }
  destruct op as [c a k|m|m a k|m name|m|m|method self other|self|self]; simpl.
  - apply Hnew.
  - by apply (inv_never_built n p (S m) Hvars Hvs m s).
  - destruct (call_cases s m a k) as [->|[_ ->]]; [done|]. by apply lookup_app_l_Some.
  - unfold __getattr__, bind, get_node, lift.
    destruct (nodes s !! m) as [q|]; [|done].
    destruct (hasattr s (cls q) name) as [[]| |]; simpl; try done; [apply (Hnew _ _ [])|].
    by destruct (__str__ s m).
  - done.
  - done.
  - unfold call_injected, _do_op, _do_rop.
    destruct (OpSupport_injected !! method) as [[op_name|op_name]|]; [| |done];
      destruct (operator_getattr op_name); simpl; (done || apply (Hnew _ _ [])).
  - apply (Hnew _ _ []).
  - apply (Hnew _ _ []).
Qed.

(** C2 (what the code does instead).  A node constructed with an empty
    variables mapping (the constructor having accepted its keywords) is
    never built: whatever operations follow its construction, [build] on it
    returns [None] and leaves the store as it is, so the wrapped callable is
    not invoked, not even the first time. *)
Theorem build_without_variables `{Runtime} `{Serializer} (s : state) (cls0 : value)
    (args0 : list value) (kwargs0 : list (string * value)) (ops : list operation) :
  keyword_clash init_params kwargs0 = None →
  _variables (ParamObj_init s cls0 args0 kwargs0) = ∅ →
  let n := length (nodes s) in
  let s' := run ops (new_ParamObj cls0 args0 kwargs0 s).2 in
  build n s' = (Ok VNone, s').
Proof.
  intros Hbound Hempty n s'.
  apply (build_new_without_variables s cls0 args0 kwargs0); [done|].
  unfold s', run.
  assert (nodes (new_ParamObj cls0 args0 kwargs0 s).2 !! n
          = Some (ParamObj_init s cls0 args0 kwargs0)) as Hn
    by (rewrite new_ParamObj_bound by done; by apply list_lookup_middle).
  revert Hn. generalize (new_ParamObj cls0 args0 kwargs0 s).2.
  induction ops as [|op ops IH]; intros s0 Hn; simpl; [done|].
  apply IH. by apply exec_keeps_never_built.
Qed.

Lemma build_without_variables_witness :
  build 0 Demo.with_constant = (Ok VNone, Demo.with_constant)
  ∧ (let s' := run [op_build 0; op_str 0; op_build 0] Demo.with_constant in
     build 0 s' = (Ok VNone, s') ∧ call_log s' = [])
  ∧ py_call Demo.four [] [] = inr (VInt 4).
Proof.
  split; [|split; [|reflexivity]].
  - apply (build_without_variables Demo.empty Demo.four [] [] []); reflexivity.
  - split; [|vm_compute; reflexivity].
    apply (build_without_variables Demo.empty Demo.four [] []
             [op_build 0; op_str 0; op_build 0]); reflexivity.
Defined.

(** C3 (what the code does instead).  When a build raises, the node has
    already recorded the version counters of the failed attempt: its cached
    instance is what it was, its snapshot is not, and the next [build] with
    the counters unchanged returns the old cached instance ([None] when
    there was none) without running anything. *)
Theorem failed_build_commits_snapshot `{Runtime} (s s1 : state) (n : node_id)
    (p : ParamObj) (e : exn) :
  wf s →
  nodes s !! n = Some p →
  build n s = (Raise e, s1) →
  nodes s1 !! n = Some (with_vars_state (snapshot s (_variables p)) p)
  ∧ snapshot s (_variables p) ≠ _vars_state p
  ∧ build n s1 = (Ok (_instance p), s1).
Proof.
  intros Hwf Hn Hbuild.
  destruct (build_commits_snapshot s n p Hwf Hn) as (p' & Hp' & Hsk & Hvs & _ & Hinst).
  rewrite Hbuild in Hp', Hinst. simpl in Hp', Hinst. specialize (Hinst e eq_refl).
  assert (p' = with_vars_state (snapshot s (_variables p)) p) as ->.
  { destruct p, p'. unfold skeleton in Hsk. simpl in *. by simplify_eq. }
  split; [done|]. split.
  - intros Heq. by rewrite (build_hit s n p Hn Heq) in Hbuild.
  - apply (build_hit s1 n _ Hp'). simpl.
    apply same_structure_snapshot. symmetry in Hbuild.
    pose proof (build_structure n s) as Hs. by rewrite <-Hbuild in Hs.
Qed.

Lemma failed_build_commits_snapshot_witness :
  let e := PyError "ValueError" "not positive" in
  let s1 := (build 0 Demo.with_N_negative).2 in
  build 0 Demo.with_N_negative = (Raise e, s1)
  ∧ call_log s1 = [mkInvocation Demo.positive [VInt (-1)] []]
  ∧ (_vars_state <$> nodes Demo.with_N_negative !! 0) = Some ∅
  ∧ (_vars_state <$> nodes s1 !! 0) = Some {[ "t" := 0%Z ]}
  ∧ build 0 s1 = (Ok VNone, s1).
Proof.
  intros e s1.
  assert (build 0 Demo.with_N_negative = (Raise e, s1)) as Hbuild by (vm_compute; reflexivity).
  split; [exact Hbuild|]. split; [vm_compute; reflexivity|].
  split; [vm_compute; reflexivity|]. split; [vm_compute; reflexivity|].
  refine (proj2 (proj2 (failed_build_commits_snapshot Demo.with_N_negative s1 0
    (ParamObj_init Demo.negative_var Demo.positive [VVar 0] []) e _ _ Hbuild))).
  - compute_done.
  - vm_compute; reflexivity.
Defined.

(** ** Rendering *)

Lemma outcome_bind_Ok {A B} (m : outcome A) (k : A → outcome B) (b : B) :
  (m ≫= k) = Ok b ↔ ∃ a, m = Ok a ∧ k a = Ok b.
Proof.
  destruct m as [a|e|]; simpl; split; try done.
  - eauto.
  - by intros (a' & [= <-] & ?).
  - by intros (? & ? & ?).
  - by intros (? & ? & ?).
Qed.

Lemma mapM_outcome_Ok {A B} (f : A → outcome B) (l : list A) (rs : list B) :
  mapM f l = Ok rs ↔ Forall2 (λ a r, f a = Ok r) l rs.
Proof.
  revert rs. induction l as [|a l IH]; intros rs; simpl.
  - split; [by intros [= <-]; constructor|by inversion 1].
  - rewrite outcome_bind_Ok. split.
    + intros (b & Hb & Hrest). apply outcome_bind_Ok in Hrest as (bs & Hbs & [= <-]).
      constructor; [done|]. by apply IH.
    + inversion 1 as [|? b ? bs Hb Hbs]; subst. exists b. split; [done|].
      apply outcome_bind_Ok. exists bs. split; [by apply IH|done].
Qed.

Section Rendering.
Context `{Runtime}.

Lemma str_value_mono (g g' : node_id → outcome string) s a r :
  (∀ m r, g m = Ok r → g' m = Ok r) →
  str_value g s a = Ok r → str_value g' s a = Ok r.
Proof. intros Hg. destruct a; simpl; auto. Qed.

Lemma str_fuel_mono s fuel : ∀ fuel' n r,
  fuel ≤ fuel' → str_fuel fuel s n = Ok r → str_fuel fuel' s n = Ok r.
Proof.
  induction fuel as [|fuel IH]; intros fuel' n r Hle; [done|].
  destruct fuel' as [|fuel']; [lia|]. simpl.
  destruct (nodes s !! n) as [self|]; [|done].
  assert (∀ a r, str_value (str_fuel fuel s) s a = Ok r →
                 str_value (str_fuel fuel' s) s a = Ok r) as Hval.
  { intros a r'. apply str_value_mono. intros m r''. apply IH. lia. }
  rewrite !outcome_bind_Ok. intros (args_ & Ha & Hrest).
  exists args_. split.
  { apply mapM_outcome_Ok. apply mapM_outcome_Ok in Ha.
    eapply Forall2_impl; [done|]. intros a r'. apply Hval. }
  revert Hrest. rewrite !outcome_bind_Ok. intros (kwargs_ & Hk & Hrest).
  exists kwargs_. split.
  { apply mapM_outcome_Ok. apply mapM_outcome_Ok in Hk.
    eapply Forall2_impl; [done|]. intros kv r'. simpl.
    rewrite !outcome_bind_Ok. intros (v & Hv & ?). exists v. split; [by apply Hval|done]. }
  revert Hrest. rewrite !outcome_bind_Ok. intros (name & Hname & Hrest).
  exists name. split; [|done].
  destruct (isParametrized (cls self)); [by apply Hval|done].
Qed.

Lemma mapM_outcome_total {A B} (f : A → outcome B) (l : list A) :
  (∀ a, a ∈ l → ∃ r, f a = Ok r) → ∃ rs, mapM f l = Ok rs.
Proof.
  induction l as [|a l IH]; intros Hf; [by exists []|].
  destruct (Hf a) as [r Hr]; [left|].
  destruct IH as [rs Hrs]; [intros a' Ha'; apply Hf; by right|].
  exists (r :: rs). apply mapM_outcome_Ok. constructor; [done|].
  by apply mapM_outcome_Ok.
Qed.

(** In a well-formed store whose targets are named, rendering returns. *)
Lemma str_fuel_total s fuel : ∀ n,
  wf s → named s → n < fuel → n < length (nodes s) → ∃ r, str_fuel fuel s n = Ok r.
Proof.
  induction fuel as [|fuel IH]; intros n Hwf Hnamed Hfuel Hlen; [lia|]. simpl.
  destruct (nodes s !! n) as [self|] eqn:Hn; [|apply lookup_ge_None in Hn; lia].
  assert (node_wf n self) as (Hc & Ha & Hk) by by eapply wf_lookup.
  assert (∀ a, refs_below n a → ∃ r, str_value (str_fuel fuel s) s a = Ok r) as Hval.
  { intros [] Hb; simpl; eauto. simpl in Hb. apply IH; [done|done|lia..]. }
  destruct (mapM_outcome_total (str_value (str_fuel fuel s) s) (args self)) as [args_ ->].
  { intros a Hin. apply Hval. rewrite Forall_forall in Ha. by apply Ha. }
  simpl.
  destruct (mapM_outcome_total
    (λ kv : string * value, v ← str_value (str_fuel fuel s) s kv.2; mret (kv.1 +:+ "=" +:+ v))
    (kwargs self)) as [kwargs_ ->].
  { intros kv Hin. destruct (Hval kv.2) as [v ->]; [|by eexists].
    rewrite Forall_forall in Hk. apply Hk. by apply list_elem_of_fmap_2. }
  simpl.
  destruct (isParametrized (cls self)) eqn:Hpar.
  - destruct (Hval (cls self) Hc) as [name ->]. by eexists.
  - assert (cls_named self) as Hnm.
    { unfold named in Hnamed. rewrite Forall_forall in Hnamed.
      apply Hnamed. by eapply list_elem_of_lookup_2. }
    destruct (Hnm Hpar) as [name ->]. by eexists.
Qed.

Lemma str_fuel_enough s fuel n :
  wf s → named s → n < fuel → n < length (nodes s) → str_fuel fuel s n = __str__ s n.
Proof.
  intros Hwf Hnamed Hfuel Hlen.
  destruct (str_fuel_total s (S n) n Hwf Hnamed) as [r Hr]; [lia|done|].
  unfold __str__. rewrite Hr. apply (str_fuel_mono s (S n)); [lia|done].
Qed.

Lemma str_value_enough s n a :
  wf s → named s → refs_below n a → n ≤ length (nodes s) →
  str_value (str_fuel n s) s a = str_value (__str__ s) s a.
Proof.
  intros Hwf Hnamed Hb Hlen. destruct a; simpl; try done.
  simpl in Hb. apply str_fuel_enough; [done|done|lia..].
Qed.
End Rendering.

(** C9. In a well-formed store whose non-symbolic targets have a declared
    name, the rendering of a node returns, and it is
    [name(arg, ..., key=value, ...)]: the positional arguments in order, then
    the keyword arguments in order, each rendered by its own [__str__] when
    it is a node, by its name when it is a variable and by its default
    textual form otherwise; the name is the rendering of the target when the
    target is symbolic, and its declared name otherwise. *)
Theorem str_renders `{Runtime} (s : state) (n : node_id) (p : ParamObj) :
  wf s → named s → nodes s !! n = Some p →
  ∃ name args_ kwargs_,
    __str__ s n = Ok (name +:+ "(" +:+ String.concat ", " (args_ ++ kwargs_) +:+ ")")
    ∧ Forall2 (λ a r, str_value (__str__ s) s a = Ok r) (args p) args_
    ∧ Forall2 (λ (kv : string * value) r,
                 ∃ v, str_value (__str__ s) s kv.2 = Ok v ∧ r = kv.1 +:+ "=" +:+ v)
              (kwargs p) kwargs_
    ∧ (if isParametrized (cls p) then str_value (__str__ s) s (cls p) = Ok name
       else dunder_name (cls p) = Some name).
Proof.
  intros Hwf Hnamed Hn.
  apply lookup_lt_Some in Hn as Hlen.
  assert (node_wf n p) as (Hc & Ha & Hk) by by eapply wf_lookup.
  destruct (str_fuel_total s (S n) n Hwf Hnamed) as [r Hr]; [lia|done|].
  unfold __str__. rewrite Hr. simpl in Hr. rewrite Hn in Hr.
  apply outcome_bind_Ok in Hr as (args_ & Hargs & Hr).
  apply outcome_bind_Ok in Hr as (kwargs_ & Hkwargs & Hr).
  apply outcome_bind_Ok in Hr as (name & Hname & [= <-]).
  exists name, args_, kwargs_. split; [done|].
  apply mapM_outcome_Ok in Hargs, Hkwargs. split_and!.
  - clear Hkwargs. induction Hargs as [|a r' l rs Hr' _ IH]; [constructor|].
    apply Forall_cons in Ha as [Ha1 Ha2]. constructor; [|by apply IH].
    rewrite <-Hr'. symmetry. apply str_value_enough; [done|done|done|lia].
  - clear Hargs. induction Hkwargs as [|kv r' l rs Hr' _ IH]; [constructor|].
    rewrite fmap_cons in Hk. apply Forall_cons in Hk as [Hk1 Hk2].
    constructor; [|by apply IH].
    apply outcome_bind_Ok in Hr' as (v & Hv & [= <-]). exists v. split; [|done].
    rewrite <-Hv. symmetry. apply str_value_enough; [done|done|done|lia].
  - destruct (isParametrized (cls p));
      [|destruct (dunder_name (cls p)); by simplify_eq].
    rewrite <-Hname. symmetry. apply str_value_enough; [done|done|done|lia].
Qed.

Lemma str_renders_witness :
  __str__ Demo.with_PP 1 = Ok "Pulse(t, 3, phase=2)(Pulse(t, 3, phase=2))"
  ∧ ∃ name args_ kwargs_,
      __str__ Demo.with_PP 1
      = Ok (name +:+ "(" +:+ String.concat ", " (args_ ++ kwargs_) +:+ ")")
      ∧ Forall2 (λ a r, str_value (__str__ Demo.with_PP) Demo.with_PP a = Ok r)
                [VParamObj 0] args_
      ∧ Forall2 (λ (kv : string * value) r,
                   ∃ v, str_value (__str__ Demo.with_PP) Demo.with_PP kv.2 = Ok v
                        ∧ r = kv.1 +:+ "=" +:+ v) [] kwargs_
      ∧ str_value (__str__ Demo.with_PP) Demo.with_PP (VParamObj 0) = Ok name.
Proof.
  split; [vm_compute; reflexivity|].
  apply (str_renders Demo.with_PP 1
           (ParamObj_init Demo.with_P (VParamObj 0) [VParamObj 0] [])).
  - compute_done.
  - compute_done.
  - vm_compute; reflexivity.
Defined.

(** ** Construction keeps the store well formed *)

Lemma nodes_new_ParamObj s c a k :
  keyword_clash init_params k = None →
  nodes (new_ParamObj c a k s).2 = nodes s ++ [ParamObj_init s c a k].
Proof. intros Hk. by rewrite new_ParamObj_bound. Qed.

Lemma wf_new_ParamObj s c a k :
  wf s →
  refs_below (length (nodes s)) c →
  Forall (refs_below (length (nodes s))) a →
  Forall (refs_below (length (nodes s))) k.*2 →
  wf (new_ParamObj c a k s).2.
Proof.
  intros Hwf Hc Ha Hk.
  destruct (new_ParamObj_cases c a k s) as [->|[e ->]]; [|done].
  apply wf_lookup. intros n p. simpl.
  intros Hn. apply lookup_snoc_Some in Hn as [[Hlt Hn]|[-> <-]].
  - by eapply wf_lookup.
  - done.
Qed.

Lemma named_new_ParamObj s c a k :
  named s → (isParametrized c = false → is_Some (dunder_name c)) →
  named (new_ParamObj c a k s).2.
Proof.
  intros Hnamed Hc.
  destruct (new_ParamObj_cases c a k s) as [->|[e ->]]; [|done].
  unfold named. simpl. apply Forall_app. split; [done|]. by constructor.
Qed.

Lemma mapM_outcome_ext {A B} (f g : A → outcome B) (l : list A) :
  (∀ a, f a = g a) → mapM f l = mapM g l.
Proof. intros Hfg. induction l as [|a l IH]; simpl; [done|]. by rewrite Hfg, IH. Qed.

(** Rendering reads the nodes and the names of the variables only. *)
Lemma str_fuel_ext `{Runtime} s s' fuel : ∀ n,
  nodes s' = nodes s → variables_store s' = variables_store s →
  str_fuel fuel s' n = str_fuel fuel s n.
Proof.
  induction fuel as [|fuel IH]; intros n Hnodes Hvars; [done|]. simpl.
  rewrite Hnodes. destruct (nodes s !! n) as [self|]; [|done].
  assert (∀ a, str_value (str_fuel fuel s') s' a = str_value (str_fuel fuel s) s a) as Hval.
  { intros []; simpl; try done; [|by apply IH].
    unfold var_name, var_object. by rewrite Hvars. }
  rewrite (mapM_outcome_ext _ _ _ Hval).
  rewrite (mapM_outcome_ext
    (λ kv : string * value, v ← str_value (str_fuel fuel s') s' kv.2; mret (kv.1 +:+ "=" +:+ v))
    (λ kv : string * value, v ← str_value (str_fuel fuel s) s kv.2; mret (kv.1 +:+ "=" +:+ v)));
    [|by intros kv; rewrite Hval].
  by rewrite Hval.
Qed.

(** C7 (as amended).  In a store whose concrete targets all have a
    declared name, calling a node with arguments none of whose keywords is
    named [self] or [cls] allocates a new node whose target is the called
    node and whose arguments are the given ones; no callable is invoked, no
    existing node changes, and one warning is emitted: the fixed text of
    the module around the rendering of the new node. *)
Theorem call_proxy `{Runtime} (s : state) (n : node_id) (args0 : list value)
    (kwargs0 : list (string * value)) :
  wf s → named s → n < length (nodes s) →
  Forall (refs_below (length (nodes s))) args0 →
  Forall (refs_below (length (nodes s))) kwargs0.*2 →
  keyword_clash init_params kwargs0 = None →
  ∃ rendering s',
    __call__ n args0 kwargs0 s = (Ok (VParamObj (length (nodes s))), s')
    ∧ nodes s' = nodes s ++ [mkParamObj (VParamObj n)
                               (_variables (ParamObj_init s (VParamObj n) args0 kwargs0))
                               args0 kwargs0 VNone ∅]
    ∧ call_log s' = call_log s
    ∧ variables_store s' = variables_store s
    ∧ __str__ s' (length (nodes s)) = Ok rendering
    ∧ warning_log s'
      = warning_log s
        ++ ["Calls to methods of parametrized objects are only executed if they "
            +:+ "serve as arguments of other parametrized objects that are "
            +:+ "themselves built. If this is not the case, the call to "
            +:+ rendering
            +:+ " will not be executed upon sequence building."].
Proof.
  intros Hwf Hnamed Hn Ha Hk Hbound.
  set (s1 := (new_ParamObj (VParamObj n) args0 kwargs0 s).2).
  assert (wf s1) as Hwf1 by by apply wf_new_ParamObj.
  assert (named s1) as Hnamed1 by by apply named_new_ParamObj.
  destruct (str_fuel_total s1 (S (length (nodes s))) (length (nodes s)) Hwf1 Hnamed1)
    as [r Hr]; [lia| |].
  { unfold s1. rewrite nodes_new_ParamObj, length_app by done. simpl. lia. }
  exists r. eexists. rewrite call_unfold by done.
  unfold s1 in Hr. rewrite new_ParamObj_bound in Hr by done.
  unfold __str__ at 1. rewrite Hr.
  split; [done|]. split_and!; try done.
  unfold __str__. rewrite <-Hr. by apply str_fuel_ext.
Qed.

Lemma call_proxy_witness :
  ∃ s',
    __call__ 0 [VInt 1] [("phase", VInt 0)] Demo.with_P = (Ok (VParamObj 1), s')
    ∧ nodes s' = nodes Demo.with_P
                 ++ [mkParamObj (VParamObj 0) {[ "t" := 0 ]}
                       [VInt 1] [("phase", VInt 0)] VNone ∅]
    ∧ call_log s' = []
    ∧ __str__ s' 1 = Ok "Pulse(t, 3, phase=2)(1, phase=0)"
    ∧ warning_log s'
      = ["Calls to methods of parametrized objects are only executed if they "
         +:+ "serve as arguments of other parametrized objects that are "
         +:+ "themselves built. If this is not the case, the call to "
         +:+ "Pulse(t, 3, phase=2)(1, phase=0)"
         +:+ " will not be executed upon sequence building."].
Proof.
  destruct (call_proxy Demo.with_P 0 [VInt 1] [("phase", VInt 0)])
    as (rendering & s' & Hcall & Hnodes & Hlog & _ & Hstr & Hwarn).
  - compute_done.
  - compute_done.
  - vm_compute. lia.
  - compute_done.
  - compute_done.
  - reflexivity.
  - exists s'. split; [exact Hcall|].
    assert (rendering = "Pulse(t, 3, phase=2)(1, phase=0)") as Hr.
    { assert (s' = (__call__ 0 [VInt 1] [("phase", VInt 0)] Demo.with_P).2) as Hs'
        by (by rewrite Hcall).
      rewrite Hs' in Hstr. vm_compute in Hstr. by injection Hstr as <-. }
    subst rendering. split_and!; [|exact Hlog|exact Hstr|exact Hwarn].
    rewrite Hnodes. vm_compute. reflexivity.
Defined.

(** C7 (where the claim fails).  A keyword named [cls] or [self] makes the
    call raise a TypeError: no node is returned and no warning is emitted.
    So does calling a node whose target has no [__name__]: rendering the new
    node for the warning raises an AttributeError. *)
Lemma call_proxy_counterexample :
  (∃ msg, __call__ 0 [] [("cls", VInt 3)] Demo.with_N
          = (Raise (PyError "TypeError" msg), Demo.with_N))
  ∧ (∃ msg, __call__ 0 [] [("self", VInt 3)] Demo.with_N
            = (Raise (PyError "TypeError" msg), Demo.with_N))
  ∧ (let s := (new_ParamObj (VObj 1) [VVar 0] [] Demo.one_var).2 in
     (∃ msg, (__call__ 0 [VInt 2] [] s).1 = Raise (AttributeError msg))
     ∧ warning_log (__call__ 0 [VInt 2] [] s).2 = []).
Proof.
  split; [|split; [|split]].
  - eexists. vm_compute. reflexivity.
  - eexists. vm_compute. reflexivity.
  - eexists. vm_compute. reflexivity.
  - vm_compute. reflexivity.
Qed.

(** ** Attribute proxying *)

Section GetAttr.
Context `{Runtime}.

Lemma getattr_found s n p name :
  nodes s !! n = Some p → hasattr s (cls p) name = Ok true →
  __getattr__ n name s = new_ParamObj (VBuiltin Bgetattr) [VParamObj n; VStr name] [] s.
Proof.
  intros Hn Hh. unfold __getattr__, bind, get_node, lift. by rewrite Hn, Hh.
Qed.

Lemma getattr_missing s n p name rendering :
  nodes s !! n = Some p → hasattr s (cls p) name = Ok false →
  __str__ s n = Ok rendering →
  __getattr__ n name s
  = (Raise (AttributeError ("No attribute named '" +:+ name +:+ "' in " +:+ rendering +:+ ".")),
     s).
Proof.
  intros Hn Hh Hr. unfold __getattr__, bind, get_node, lift. by rewrite Hn, Hh, Hr.
Qed.

(** An attribute access that returns, returns a new node whose target is
    the built-in [getattr]; it leaves every other part of the store alone. *)
Lemma getattr_returns s n name v s' :
  __getattr__ n name s = (Ok v, s') →
  ∃ p, nodes s !! n = Some p
       ∧ hasattr s (cls p) name = Ok true
       ∧ v = VParamObj (length (nodes s))
       ∧ s' = (new_ParamObj (VBuiltin Bgetattr) [VParamObj n; VStr name] [] s).2.
Proof.
  unfold __getattr__, bind, get_node, lift.
  destruct (nodes s !! n) as [p|]; [|done].
  destruct (hasattr s (cls p) name) as [[]| |] eqn:Hh; try done.
  - intros [= <- <-]. by exists p.
  - by destruct (__str__ s n).
Qed.
End GetAttr.

(** C10. Attribute proxying does not chain.  The node an attribute access
    returns has the built-in [getattr] as its target, and accessing on it an
    attribute that the built-in function itself does not have raises an
    AttributeError naming the attribute and the rendering of the node,
    whatever the node would build to. *)
Theorem getattr_does_not_chain `{Runtime} (s s' : state) (x : node_id)
    (name m : string) (v : value) :
  wf s → named s →
  __getattr__ x name s = (Ok v, s') →
  py_hasattr (VBuiltin Bgetattr) m = false →
  ∃ a rendering,
    v = VParamObj a
    ∧ cls <$> nodes s' !! a = Some (VBuiltin Bgetattr)
    ∧ __str__ s' a = Ok rendering
    ∧ __getattr__ a m s'
      = (Raise (AttributeError ("No attribute named '" +:+ m +:+ "' in " +:+ rendering +:+ ".")),
         s').
Proof.
  intros Hwf Hnamed Hget Hm.
  apply getattr_returns in Hget as (p & Hx & _ & -> & ->).
  apply lookup_lt_Some in Hx as Hlen.
  set (s1 := (new_ParamObj (VBuiltin Bgetattr) [VParamObj x; VStr name] [] s).2).
  assert (wf s1) as Hwf1.
  { apply wf_new_ParamObj; [done|done| |by constructor].
    constructor; [done|]. by constructor. }
  assert (named s1) as Hnamed1 by (apply named_new_ParamObj; [done|by eexists]).
  assert (nodes s1 !! length (nodes s)
          = Some (ParamObj_init s (VBuiltin Bgetattr) [VParamObj x; VStr name] [])) as Hnew.
  { unfold s1. rewrite nodes_new_ParamObj by done. by apply list_lookup_middle. }
  destruct (str_fuel_total s1 (S (length (nodes s))) (length (nodes s)) Hwf1 Hnamed1)
    as [r Hr]; [lia|by apply lookup_lt_Some in Hnew|].
  exists (length (nodes s)), r. split_and!; [done|by rewrite Hnew|done|].
  eapply getattr_missing; [done| |done]. unfold hasattr. simpl. by rewrite Hm.
Qed.

Lemma getattr_does_not_chain_witness :
  let s' := (__getattr__ 0 "twin" Demo.with_pulse).2 in
  __getattr__ 0 "twin" Demo.with_pulse = (Ok (VParamObj 1), s')
  ∧ (build 1 s').1 = Ok (VObj 5)
  ∧ py_hasattr (VObj 5) "duration" = true
  ∧ __getattr__ 1 "duration" s'
    = (Raise (AttributeError "No attribute named 'duration' in getattr(Pulse(t), twin)."), s').
Proof.
  intros s'.
  assert (__getattr__ 0 "twin" Demo.with_pulse = (Ok (VParamObj 1), s')) as Hget
    by (vm_compute; reflexivity).
  split; [exact Hget|]. split; [vm_compute; reflexivity|]. split; [reflexivity|].
  destruct (getattr_does_not_chain Demo.with_pulse s' 0 "twin" "duration" (VParamObj 1))
    as (a & r & Ha & _ & Hstr & Hraise).
  - compute_done.
  - compute_done.
  - exact Hget.
  - reflexivity.
  - injection Ha as <-.
    assert (r = "getattr(Pulse(t), twin)") as ->; [|exact Hraise].
    assert (__str__ s' 1 = Ok "getattr(Pulse(t), twin)") as Hc by (vm_compute; reflexivity).
    rewrite Hc in Hstr. by injection Hstr.
Defined.

(** ** Nodes constructed from operands without variables *)

Section NoVariables.
Context `{Runtime}.

Lemma merge_variables_referenced s acc x :
  merge_variables s acc x = referenced s x ∪ acc.
Proof.
  unfold referenced, merge_variables, dict_update.
  destruct (isParametrized x); [|by rewrite (left_id_L ∅ (∪))].
  by rewrite (right_id_L ∅ (∪)).
Qed.

Lemma injected_methods method :
  method ∈ reversible_ops →
  ∃ b, operator_getattr method = Some (VBuiltin b)
       ∧ OpSupport_injected !! method = Some (partial_do_op method)
       ∧ OpSupport_injected
           !! ("__r" +:+ String.substring 2 (String.length method - 2) method)
         = Some (partial_do_rop method).
Proof.
  unfold reversible_ops. intros Hin.
  repeat (apply elem_of_cons in Hin as [->|Hin]);
    [eexists; split_and!; vm_compute; reflexivity..|].
  by apply elem_of_nil in Hin.
Qed.
End NoVariables.

(** C6 (what the code does instead, for a node without variables).  The
    attribute access returns the proxy node without running anything, but
    when the accessed node has no variables the proxy has none either, and
    building the proxy returns [None] without calling [getattr]. *)
Theorem getattr_proxy_without_variables `{Runtime} (s : state) (n : node_id)
    (p : ParamObj) (name : string) :
  nodes s !! n = Some p → _variables p = ∅ → hasattr s (cls p) name = Ok true →
  ∃ s', __getattr__ n name s = (Ok (VParamObj (length (nodes s))), s')
        ∧ call_log s' = call_log s
        ∧ build (length (nodes s)) s' = (Ok VNone, s').
Proof.
  intros Hn Hempty Hh. rewrite (getattr_found s n p name Hn Hh).
  eexists. split; [done|]. split; [done|].
  apply (build_new_without_variables s (VBuiltin Bgetattr) [VParamObj n; VStr name] []).
  - simpl. rewrite !merge_variables_referenced. unfold referenced, merge_variables. simpl.
    rewrite Hn, Hempty. unfold dict_update. by rewrite !(left_id_L ∅ (∪)).
  - simpl. by apply list_lookup_middle.
Qed.

Lemma getattr_proxy_without_variables_witness :
  (∃ s', __getattr__ 0 "duration" Demo.with_concrete_pulse = (Ok (VParamObj 1), s')
         ∧ call_log s' = []
         ∧ build 1 s' = (Ok VNone, s'))
  ∧ py_call Demo.Pulse [VInt 5] [] = inr (VObj 5)
  ∧ py_call (VBuiltin Bgetattr) [VObj 5; VStr "duration"] [] = inr (VInt 5)
  ∧ (build 0 Demo.with_concrete_pulse).1 = Ok VNone
  ∧ py_call (VBuiltin Bgetattr) [VNone; VStr "duration"] [] = inl (no_attribute "duration").
Proof.
  split; [|split_and!; vm_compute; reflexivity].
  apply (getattr_proxy_without_variables Demo.with_concrete_pulse 0
           (ParamObj_init Demo.empty Demo.Pulse [VInt 5] []) "duration").
  - vm_compute; reflexivity.
  - vm_compute; reflexivity.
  - vm_compute; reflexivity.
Defined.

(** C5 (what the code does instead, for operands without variables).  An
    injected operator method returns the operator node without running
    anything, but when neither operand refers to a variable the node has no
    variables, and building it returns [None] without applying the
    operator. *)
Theorem operator_node_without_variables `{Runtime} (s : state) (method : string)
    (self other : value) :
  method ∈ reversible_ops →
  referenced s self = ∅ → referenced s other = ∅ →
  ∃ s', call_injected method self other s = (Ok (VParamObj (length (nodes s))), s')
        ∧ call_log s' = call_log s
        ∧ build (length (nodes s)) s' = (Ok VNone, s').
Proof.
  intros Hin Hself Hother.
  destruct (injected_methods method Hin) as (b & Hb & Hfwd & _).
  unfold call_injected, _do_op. rewrite Hfwd, Hb.
  eexists. split; [done|]. split; [done|].
  apply (build_new_without_variables s (VBuiltin b) [self; other] []).
  - simpl. rewrite !merge_variables_referenced, Hself, Hother.
    unfold referenced, merge_variables. simpl. by rewrite !(left_id_L ∅ (∪)).
  - simpl. by apply list_lookup_middle.
Qed.

Lemma operator_node_without_variables_witness :
  (∃ s', call_injected "__add__" (VParamObj 0) (VInt 3) Demo.with_constant
         = (Ok (VParamObj 1), s')
         ∧ call_log s' = []
         ∧ build 1 s' = (Ok VNone, s'))
  ∧ py_call Demo.four [] [] = inr (VInt 4)
  ∧ py_call (VBuiltin Badd) [VInt 4; VInt 3] [] = inr (VInt 7)
  ∧ (build 0 Demo.with_constant).1 = Ok VNone
  ∧ py_call (VBuiltin Badd) [VNone; VInt 3] [] = inl Demo.type_error.
Proof.
  split; [|split_and!; vm_compute; reflexivity].
  apply (operator_node_without_variables Demo.with_constant "__add__" (VParamObj 0) (VInt 3)).
  - compute_done.
  - vm_compute; reflexivity.
  - vm_compute; reflexivity.
Defined.

(** ** Serialisation *)

Section ToDictFuel.
Context `{Serializer}.

Lemma to_dict_fuel_mono s fuel : ∀ fuel' n,
  fuel ≤ fuel' → to_dict_fuel fuel s n ≠ Stuck →
  to_dict_fuel fuel' s n = to_dict_fuel fuel s n.
Proof.
  induction fuel as [|fuel IH]; intros fuel' n Hle Hns; [done|].
  destruct fuel' as [|fuel']; [lia|]. simpl in *.
  destruct (nodes s !! n) as [self|]; [|done].
  destruct (cls self); try done.
  rewrite (IH fuel'); [done|lia|]. intros Hst. by rewrite Hst in Hns.
Qed.

Lemma to_dict_fuel_safe s fuel : ∀ n,
  wf s → n < fuel → n < length (nodes s) → to_dict_fuel fuel s n ≠ Stuck.
Proof.
  induction fuel as [|fuel IH]; intros n Hwf Hfuel Hlen; [lia|]. simpl.
  destruct (nodes s !! n) as [self|] eqn:Hn; [|apply lookup_ge_None in Hn; lia].
  assert (node_wf n self) as (Hc & _) by by eapply wf_lookup.
  destruct (cls self) as [| | | | | | | |m] eqn:Hcls; simpl; try done.
  simpl in Hc.
  pose proof (IH m Hwf ltac:(lia) ltac:(lia)) as Hsub.
  by destruct (to_dict_fuel fuel s m).
Qed.

Lemma to_dict_fuel_enough s fuel n :
  wf s → n < fuel → n < length (nodes s) → to_dict_fuel fuel s n = _to_dict s n.
Proof.
  intros Hwf Hfuel Hlen. unfold _to_dict. apply to_dict_fuel_mono; [lia|].
  apply to_dict_fuel_safe; [done|lia|done].
Qed.
End ToDictFuel.

(** C8. The description of a node is [obj_to_dict] applied to the node, the
    description of its target, its positional arguments in order and its
    keyword arguments: the description of the target is the target's own
    [_to_dict] when the target is symbolic, and otherwise an [obj_to_dict]
    entry that records the target's name and module.  Nothing is built and
    the store is left as it is. *)
Theorem to_dict_describes `{Runtime} `{Serializer} (s : state) (n : node_id) (p : ParamObj) :
  wf s → nodes s !! n = Some p →
  (∀ m, cls p = VParamObj m →
     _to_dict s n
     = (d ← _to_dict s m;
        mret (obj_to_dict (VParamObj n) (inl d :: (inr <$> args p)) (kwargs p))))
  ∧ (∀ x, cls p = VVar x →
       _to_dict s n
       = Ok (obj_to_dict (VParamObj n)
               (inl (Variable_to_dict (var_object s x)) :: (inr <$> args p)) (kwargs p)))
  ∧ (isParametrized (cls p) = false →
     ∀ nm md, dunder_name (cls p) = Some nm → dunder_module (cls p) = Some md →
       _to_dict s n
       = Ok (obj_to_dict (VParamObj n)
               (inl (obj_to_dict (VParamObj n) []
                       [("_build", VBool false); ("_name", VStr nm); ("_module", VStr md)])
                :: (inr <$> args p))
               (kwargs p)))
  ∧ exec (op_to_dict n) s = s.
Proof.
  intros Hwf Hn.
  assert (node_wf n p) as (Hc & _) by by eapply wf_lookup.
  apply lookup_lt_Some in Hn as Hlen.
  split_and!.
  - intros m Hcls. unfold _to_dict at 1. simpl. rewrite Hn, Hcls.
    rewrite Hcls in Hc. simpl in Hc.
    by rewrite (to_dict_fuel_enough s n m) by (done || lia).
  - intros x Hcls. unfold _to_dict. simpl. by rewrite Hn, Hcls.
  - intros Hpar nm md Hnm Hmd. unfold _to_dict. simpl. rewrite Hn.
    destruct (cls p); simpl in *; try done; by simplify_eq.
  - done.
Qed.

Lemma to_dict_describes_witness :
  _to_dict Demo.with_PP 1
  = Ok (Demo.Described (VParamObj 1)
          [inl (Demo.Described (VParamObj 0)
                  [inl (Demo.Described (VParamObj 0) []
                          [("_build", VBool false); ("_name", VStr "Pulse");
                           ("_module", VStr "pulser.pulse")]);
                   inr (VVar 0); inr (VInt 3)]
                  [("phase", VInt 2)]);
           inr (VParamObj 0)]
          [])
  ∧ exec (op_to_dict 1) Demo.with_PP = Demo.with_PP.
Proof.
  assert (wf Demo.with_PP) as Hwf by compute_done.
  destruct (to_dict_describes Demo.with_PP 1
              (ParamObj_init Demo.with_P (VParamObj 0) [VParamObj 0] []) Hwf)
    as (Htarget & _ & _ & Hpure); [vm_compute; reflexivity|].
  destruct (to_dict_describes Demo.with_PP 0
              (ParamObj_init Demo.one_var Demo.Pulse [VVar 0; VInt 3] [("phase", VInt 2)]) Hwf)
    as (_ & _ & Hconcrete & _); [vm_compute; reflexivity|].
  split; [|exact Hpure].
  rewrite (Htarget 0 eq_refl).
  rewrite (Hconcrete eq_refl "Pulse" "pulser.pulse" eq_refl eq_refl).
  reflexivity.
Defined.

(** ** The variables of a node *)

Lemma merge_variables_lookup s acc x key v :
  merge_variables s acc x !! key = Some v ↔
  (isParametrized x = true ∧ variables s x !! key = Some v)
  ∨ ((isParametrized x = true → variables s x !! key = None) ∧ acc !! key = Some v).
Proof.
  unfold merge_variables, dict_update. destruct (isParametrized x).
  - rewrite lookup_union_Some_raw. split.
    + intros [?|[??]]; [by left|right]. by split.
    + intros [[_ ?]|[Hnone ?]]; [by left|right]. split; [by apply Hnone|done].
  - split; [intros ?; right; by split|]. by intros [[? _]|[_ ?]].
Qed.

Lemma foldl_merge_lookup s l : ∀ acc key v,
  foldl (merge_variables s) acc l !! key = Some v →
  acc !! key = Some v
  ∨ ∃ sub, sub ∈ l ∧ isParametrized sub = true ∧ variables s sub !! key = Some v.
Proof.
  induction l as [|x l IH]; intros acc key v; simpl; [by left|].
  intros Hl. apply IH in Hl as [Hl|(sub & Hin & Hpar & Hsub)].
  - apply merge_variables_lookup in Hl as [[Hpar Hx]|[_ Hacc]]; [|by left].
    right. exists x. split; [left|done].
  - right. exists sub. split; [by right|done].
Qed.

Lemma foldl_merge_is_Some s l : ∀ acc key,
  is_Some (foldl (merge_variables s) acc l !! key) ↔
  is_Some (acc !! key)
  ∨ ∃ sub, sub ∈ l ∧ isParametrized sub = true ∧ is_Some (variables s sub !! key).
Proof.
  induction l as [|x l IH]; intros acc key; simpl.
  - split; [by left|]. intros [?|(sub & Hin & _)]; [done|]. by apply elem_of_nil in Hin.
  - rewrite IH. split.
    + intros [[v Hv]|(sub & Hin & Hpar & Hsub)].
      * apply merge_variables_lookup in Hv as [[Hpar Hx]|[_ Hacc]]; [|by left; eexists].
        right. exists x. split; [left|]. split; [done|by eexists].
      * right. exists sub. split; [by right|done].
    + intros [[v Hv]|(sub & Hin & Hpar & Hsub)].
      * left. destruct (isParametrized x) eqn:Hpar.
        -- destruct (variables s x !! key) as [w|] eqn:Hx.
           ++ exists w. apply merge_variables_lookup. by left.
           ++ exists v. apply merge_variables_lookup. by right.
        -- exists v. apply merge_variables_lookup. right. split; [congruence|done].
      * apply elem_of_cons in Hin as [->|Hin].
        -- left. destruct Hsub as [w Hw]. exists w. apply merge_variables_lookup. by left.
        -- right. exists sub. by split.
Qed.

Lemma variables_init s cls0 args0 kwargs0 :
  _variables (ParamObj_init s cls0 args0 kwargs0)
  = foldl (merge_variables s) ∅ (cls0 :: args0 ++ kwargs0.*2).
Proof. done. Qed.

(** Every operation leaves what the existing nodes are made of alone. *)
Lemma exec_keeps_nodes `{Runtime} `{Serializer} (op : operation) (s : state)
    (n : node_id) (q : ParamObj) :
  nodes s !! n = Some q →
  ∃ q', nodes (exec op s) !! n = Some q' ∧ skeleton q' = skeleton q.
Proof.
  intros Hn.
  assert (∀ c a k, ∃ q', nodes (new_ParamObj c a k s).2 !! n = Some q'
                         ∧ skeleton q' = skeleton q) as Hnew.
  { intros c a k. exists q. split; [|done].
    destruct (new_ParamObj_cases c a k s) as [->|[e ->]]; [|done].
    by apply lookup_app_l_Some. }
  assert (∃ q', nodes s !! n = Some q' ∧ skeleton q' = skeleton q) as Hsame by eauto.
  destruct op as [c a k|m|m a k|m name|m|m|method self other|self|self]; simpl.
  - apply Hnew.
  - apply (same_structure_lookup s); [apply build_structure|done].
  - destruct (call_cases s m a k) as [->|[_ ->]]; [done|].
    exists q. split; [|done]. by apply lookup_app_l_Some.
  - unfold __getattr__, bind, get_node, lift.
    destruct (nodes s !! m) as [p|]; [|done].
    destruct (hasattr s (cls p) name) as [[]| |]; simpl; try done; [apply (Hnew _ _ [])|].
    by destruct (__str__ s m).
  - done.
  - done.
  - unfold call_injected, _do_op, _do_rop.
    destruct (OpSupport_injected !! method) as [[op_name|op_name]|]; [| |done];
      destruct (operator_getattr op_name); simpl; (done || apply (Hnew _ _ [])).
  - apply (Hnew _ _ []).
  - apply (Hnew _ _ []).
Qed.

(** C4. The variables of a constructed node are the union of the variables
    of its symbolic sub-objects, the target first, then the positional
    arguments and the keyword values: a key is bound exactly when one of
    them binds it, every binding is the binding of one of them, and a
    binding on which they all agree is kept; what is not symbolic
    contributes nothing.  No operation changes the variables (or the target
    and arguments) of a node that exists. *)
Theorem variables_union_fixed `{Runtime} `{Serializer} (s : state) (cls0 : value)
    (args0 : list value) (kwargs0 : list (string * value)) :
  let p := ParamObj_init s cls0 args0 kwargs0 in
  let subs := cls0 :: args0 ++ kwargs0.*2 in
  (∀ key, is_Some (_variables p !! key) ↔
          ∃ sub, sub ∈ subs ∧ isParametrized sub = true ∧ is_Some (variables s sub !! key))
  ∧ (∀ key x, _variables p !! key = Some x →
              ∃ sub, sub ∈ subs ∧ isParametrized sub = true ∧ variables s sub !! key = Some x)
  ∧ (∀ key x sub,
       sub ∈ subs → isParametrized sub = true → variables s sub !! key = Some x →
       (∀ sub' y, sub' ∈ subs → isParametrized sub' = true →
                  variables s sub' !! key = Some y → y = x) →
       _variables p !! key = Some x)
  ∧ (∀ (op : operation) (s1 : state) (n : node_id) (q : ParamObj),
       nodes s1 !! n = Some q →
       ∃ q', nodes (exec op s1) !! n = Some q'
             ∧ _variables q' = _variables q
             ∧ cls q' = cls q ∧ args q' = args q ∧ kwargs q' = kwargs q).
Proof.
  intros p subs. split_and!.
  - intros key. unfold p. rewrite variables_init, foldl_merge_is_Some.
    rewrite lookup_empty. split; [|by right].
    intros [Hempty|?]; [by apply is_Some_None in Hempty|done].
  - intros key x. unfold p. rewrite variables_init. intros Hx.
    apply foldl_merge_lookup in Hx as [Hx|?]; [|done]. by rewrite lookup_empty in Hx.
  - intros key x sub Hin Hpar Hx Hagree.
    assert (is_Some (_variables p !! key)) as [z Hz].
    { unfold p. rewrite variables_init. apply foldl_merge_is_Some. right.
      exists sub. split_and!; [done|done|by eexists]. }
    rewrite Hz. f_equal. unfold p in Hz. rewrite variables_init in Hz.
    apply foldl_merge_lookup in Hz as [Hz|(sub' & Hin' & Hpar' & Hz)];
      [by rewrite lookup_empty in Hz|].
    by eapply Hagree.
  - intros op s1 n q Hq. destruct (exec_keeps_nodes op s1 n q Hq) as (q' & Hq' & Hsk).
    exists q'. injection Hsk as ????. by split_and!.
Qed.

Lemma variables_union_fixed_witness :
  (∃ sub, sub ∈ [VParamObj 0; VParamObj 0] ∧ isParametrized sub = true
          ∧ variables Demo.with_P sub !! "t" = Some 0)
  ∧ ∃ q', nodes (exec (op_build 0) Demo.with_P) !! 0 = Some q'
          ∧ _variables q' = {[ "t" := 0 ]}
          ∧ cls q' = Demo.Pulse ∧ args q' = [VVar 0; VInt 3]
          ∧ kwargs q' = [("phase", VInt 2)].
Proof.
  destruct (variables_union_fixed Demo.with_P (VParamObj 0) [VParamObj 0] [])
    as (_ & Hfrom & _ & Hfixed).
  split.
  - apply (Hfrom "t" 0). vm_compute; reflexivity.
  - apply (Hfixed (op_build 0) Demo.with_P 0
             (ParamObj_init Demo.one_var Demo.Pulse [VVar 0; VInt 3] [("phase", VInt 2)])).
    vm_compute; reflexivity.
Defined.

(** ** Building operator and attribute nodes that have variables *)

Section FreshNodes.
Context `{Runtime}.

Lemma inv_build_operands_structure s0 operands :
  inv (same_structure s0) (mapM_st (build_value build) operands).
Proof.
  apply inv_mapM_st. intros a _. apply inv_build_value. intros m _.
  apply build_fuel_structure.
Qed.

Lemma mapM_st_pair {A B} (f : A → M B) (a b : A) (s : state) :
  mapM_st f [a; b] s = (va <- f a ;; vb <- f b ;; ret [va; vb]) s.
Proof.
  simpl. unfold bind. destruct (f a s) as [[va|e|] sa]; [|done|done].
  by destruct (f b sa) as [[vb|e|] sb].
Qed.

(** The first build of a node just constructed from a built-in function
    and positional operands, when the node has variables: the operands are
    built in order and the function is applied to the results. *)
Lemma build_fresh_builtin s b operands :
  wf s → Forall (refs_below (length (nodes s))) operands →
  _variables (ParamObj_init s (VBuiltin b) operands []) ≠ ∅ →
  let N := length (nodes s) in
  let p := ParamObj_init s (VBuiltin b) operands [] in
  let s' := (new_ParamObj (VBuiltin b) operands [] s).2 in
  let s1 := set_nodes (alter (with_vars_state (snapshot s' (_variables p))) N) s' in
  (build N s').1
  = ((args_ <- mapM_st (build_value build) operands ;; invoke (VBuiltin b) args_ []) s1).1.
Proof.
  intros Hwf Hops Hvars N p s' s1.
  assert (nodes s' !! N = Some p) as Hn by (by apply list_lookup_middle).
  assert (wf s') as Hwf' by (apply wf_new_ParamObj; [done|done|done|by constructor]).
  assert (snapshot s' (_variables p) ≠ _vars_state p) as Hne.
  { simpl. unfold snapshot. by rewrite fmap_empty_iff. }
  rewrite (build_miss s' N p Hwf' Hn Hne). unfold rebuild, bind.
  change (update_node N (with_vars_state (snapshot s' (_variables p))) s') with (Ok (), s1).
  cbv iota. change (args p) with operands. change (kwargs p) with (@nil (string * value)).
  change (cls p) with (VBuiltin b). simpl mapM_st. simpl resolve_cls.
  pose proof (inv_build_operands_structure s1 operands s1 ltac:(done)) as Hss.
  destruct (mapM_st (build_value build) operands s1) as [[args_|e|] sa]; simpl in *;
    try done.
  unfold invoke. destruct (py_call (VBuiltin b) args_ []) as [e|r]; simpl; [done|].
  rewrite list_lookup_alter_eq.
  destruct (same_structure_lookup s1 sa N (with_vars_state (snapshot s' (_variables p)) p) Hss)
    as (q & -> & _); [|done].
  simpl. by rewrite list_lookup_alter_eq, Hn.
Qed.

(** The injected methods construct, and do not evaluate: the forward
    method wraps the operator function with [(self, other)], the reflected
    one with [(other, self)]. *)
Lemma operator_construction method :
  method ∈ reversible_ops →
  ∃ b, operator_getattr method = Some (VBuiltin b)
       ∧ ∀ s self other,
           call_injected method self other s
           = new_ParamObj (VBuiltin b) [self; other] [] s
           ∧ call_injected ("__r" +:+ String.substring 2 (String.length method - 2) method)
                           self other s
             = new_ParamObj (VBuiltin b) [other; self] [] s.
Proof.
  intros Hin. destruct (injected_methods method Hin) as (b & Hb & Hfwd & Hrefl).
  exists b. split; [done|]. intros s self other.
  unfold call_injected, _do_op, _do_rop. by rewrite Hfwd, Hrefl, Hb.
Qed.

(** Building the node of [self OP other], when it has variables, is
    building the operands and applying the operator function to them. *)
Lemma build_operator_node s method self other :
  wf s → method ∈ reversible_ops →
  refs_below (length (nodes s)) self → refs_below (length (nodes s)) other →
  referenced s other ∪ referenced s self ≠ ∅ →
  ∃ b s' s1,
    operator_getattr method = Some (VBuiltin b)
    ∧ call_injected method self other s = (Ok (VParamObj (length (nodes s))), s')
    ∧ same_structure s' s1
    ∧ (build (length (nodes s)) s').1
      = ((va <- build_value build self ;; vb <- build_value build other ;;
          invoke (VBuiltin b) [va; vb] []) s1).1.
Proof.
  intros Hwf Hin Hself Hother Hvars.
  destruct (operator_construction method Hin) as (b & Hb & Hcons).
  destruct (Hcons s self other) as [Hfwd _].
  set (p := ParamObj_init s (VBuiltin b) [self; other] []).
  set (s' := (new_ParamObj (VBuiltin b) [self; other] [] s).2).
  exists b, s', (set_nodes (alter (with_vars_state (snapshot s' (_variables p)))
                             (length (nodes s))) s').
  split; [done|]. split; [by rewrite Hfwd|].
  split; [by apply same_structure_alter, skeleton_with_vars_state|].
  unfold s', p. rewrite build_fresh_builtin; [|done|by repeat constructor|].
  - unfold bind at 1. rewrite mapM_st_pair. unfold bind.
    destruct (build_value build self _) as [[va|e|] sa]; [|done|done].
    by destruct (build_value build other sa) as [[vb|e|] sb].
  - simpl. rewrite !merge_variables_referenced.
    replace (referenced s (VBuiltin b)) with (∅ : gmap string var_id) by done.
    by rewrite !(right_id_L ∅ (∪)).
Qed.

(** Building the node of [x.name], when it has variables, is building [x]
    and applying [getattr] to the result and the name. *)
Lemma build_getattr_node s x p name :
  wf s → nodes s !! x = Some p → hasattr s (cls p) name = Ok true →
  _variables p ≠ ∅ →
  ∃ s' s1,
    __getattr__ x name s = (Ok (VParamObj (length (nodes s))), s')
    ∧ same_structure s' s1
    ∧ (build (length (nodes s)) s').1
      = ((vx <- build x ;; invoke (VBuiltin Bgetattr) [vx; VStr name] []) s1).1.
Proof.
  intros Hwf Hx Hh Hvars. apply lookup_lt_Some in Hx as Hlen.
  set (q := ParamObj_init s (VBuiltin Bgetattr) [VParamObj x; VStr name] []).
  set (s' := (new_ParamObj (VBuiltin Bgetattr) [VParamObj x; VStr name] [] s).2).
  exists s', (set_nodes (alter (with_vars_state (snapshot s' (_variables q)))
                          (length (nodes s))) s').
  split; [by rewrite (getattr_found s x p name Hx Hh)|].
  split; [by apply same_structure_alter, skeleton_with_vars_state|].
  unfold s', q. rewrite build_fresh_builtin; [|done|by repeat constructor|].
  - unfold bind at 1. rewrite mapM_st_pair. unfold bind. simpl.
    by destruct (build x _) as [[vx|e|] sa].
  - simpl. rewrite !merge_variables_referenced. unfold referenced, merge_variables. simpl.
    rewrite Hx. unfold dict_update. by rewrite !(right_id_L ∅ (∪)), (left_id_L ∅ (∪)).
Qed.
End FreshNodes.

(** * Further properties of the module *)

(** ** The cache miss, in full *)

Section Evaluate.
Context `{Runtime}.

Lemma rebuild_evaluate s n p vs :
  rebuild build n p vs s
  = match evaluate (cls p) (args p) (kwargs p)
            (set_nodes (alter (with_vars_state vs) n) s) with
    | (Ok r, s2) => (Ok (), set_nodes (alter (with_instance r) n) s2)
    | (Raise e, s2) => (Raise e, s2)
    | (Stuck, s2) => (Stuck, s2)
    end.
Proof.
  unfold rebuild, evaluate, bind.
  change (update_node n (with_vars_state vs) s)
    with (Ok (), set_nodes (alter (with_vars_state vs) n) s). cbv iota.
  destruct (mapM_st _ (args p) _) as [[args_|e|] sa]; [|done|done].
  destruct (mapM_st _ (kwargs p) sa) as [[kwargs_|e|] sb]; [|done|done].
  destruct (resolve_cls build (cls p) sb) as [[obj|e|] sc]; [|done|done].
  by destruct (invoke obj args_ kwargs_ sc) as [[r|e|] sd].
Qed.

Lemma inv_evaluate_framed s0 n p :
  wf s0 → node_wf n p → inv (framed s0 n) (evaluate (cls p) (args p) (kwargs p)).
Proof.
  intros Hwf Hp. destruct (inv_children_framed s0 n p Hwf Hp) as (Ha & Hk & Hc).
  unfold evaluate.
  apply inv_bind; [done|]; intros args_.
  apply inv_bind; [done|]; intros kwargs_.
  apply inv_bind; [done|]; intros obj.
  intros s [Hss Hfr]. split.
  - by apply inv_invoke_structure.
  - unfold invoke. by destruct (py_call obj args_ kwargs_).
Qed.

Lemma evaluate_keeps_node s n p vs :
  wf s → nodes s !! n = Some p →
  nodes (evaluate (cls p) (args p) (kwargs p)
           (set_nodes (alter (with_vars_state vs) n) s)).2 !! n
  = Some (with_vars_state vs p).
Proof.
  intros Hwf Hn.
  assert (node_wf n p) as Hp by by eapply wf_lookup.
  set (s1 := set_nodes (alter (with_vars_state vs) n) s).
  assert (wf s1) as Hwf1 by by apply wf_update_node.
  destruct (inv_evaluate_framed s1 n p Hwf1 Hp s1 (framed_refl _ _)) as [_ Hfr].
  rewrite Hfr by done. simpl. by rewrite list_lookup_alter_eq, Hn.
Qed.
End Evaluate.

(** X1. A build that finds the snapshot of the node out of date records the
    new snapshot and evaluates the call the node stands for.  When the call
    returns, its result is cached and returned; when an argument build, the
    target build or the callable raises, the same exception is raised and
    the cached instance is not touched, while the new snapshot stays
    recorded.  It never gets stuck. *)
Theorem build_on_miss `{Runtime} (s : state) (n : node_id) (p : ParamObj) :
  wf s → nodes s !! n = Some p →
  snapshot s (_variables p) ≠ _vars_state p →
  let vs := snapshot s (_variables p) in
  let attempt := evaluate (cls p) (args p) (kwargs p)
               (set_nodes (alter (with_vars_state vs) n) s) in
  build n s
  = match attempt with
    | (Ok r, s2) => (Ok r, set_nodes (alter (with_instance r) n) s2)
    | (Raise e, s2) => (Raise e, s2)
    | (Stuck, s2) => (Stuck, s2)
    end
  ∧ attempt.1 ≠ Stuck
  ∧ nodes attempt.2 !! n = Some (with_vars_state vs p)
  ∧ (∀ r, attempt.1 = Ok r →
          nodes (build n s).2 !! n = Some (with_instance r (with_vars_state vs p))).
Proof.
  intros Hwf Hn Hmiss vs attempt.
  pose proof (evaluate_keeps_node s n p vs Hwf Hn) as Hkeep. fold attempt in Hkeep.
  assert (build n s
          = match attempt with
            | (Ok r, s2) => (Ok r, set_nodes (alter (with_instance r) n) s2)
            | (Raise e, s2) => (Raise e, s2)
            | (Stuck, s2) => (Stuck, s2)
            end) as Hbuild.
  { rewrite (build_miss s n p Hwf Hn Hmiss), rebuild_evaluate. fold vs. fold attempt.
    destruct attempt as [[r|e|] s2]; [|done|done].
    simpl in Hkeep. simpl. by rewrite list_lookup_alter_eq, Hkeep. }
  split; [done|]. split_and!.
  - pose proof (build_safe n s Hwf (lookup_lt_Some _ _ _ Hn)) as Hsafe.
    rewrite Hbuild in Hsafe. by destruct attempt as [[r|e|] s2].
  - done.
  - intros r Hr. rewrite Hbuild. destruct attempt as [[r'|e|] s2]; simplify_eq/=.
    by rewrite list_lookup_alter_eq, Hkeep.
Qed.

Lemma build_on_miss_witness :
  let s := Demo.assign 0 (VInt 7) (build 0 Demo.with_N).2 in
  (build 0 s).1 = Ok (VInt 7)
  ∧ (build 0 Demo.with_N_negative).1 = Raise (PyError "ValueError" "not positive")
  ∧ _instance <$> nodes (build 0 Demo.with_N_negative).2 !! 0 = Some VNone.
Proof.
  intros s.
  destruct (build_on_miss s 0 Demo.N_built) as (Hb & _ & _ & _).
  { compute_done. }
  { vm_compute; reflexivity. }
  { compute_done. }
  destruct (build_on_miss Demo.with_N_negative 0
              (ParamObj_init Demo.negative_var Demo.positive [VVar 0] []))
    as (Hb' & _ & Hkeep & _).
  { compute_done. }
  { vm_compute; reflexivity. }
  { compute_done. }
  split; [rewrite Hb; vm_compute; reflexivity|].
  split; [rewrite Hb'; vm_compute; reflexivity|].
  rewrite Hb'. vm_compute. reflexivity.
Defined.

(** ** The operator methods *)

Lemma variables_init_binary s c x y :
  isParametrized c = false →
  _variables (ParamObj_init s c [x; y] []) = referenced s y ∪ referenced s x.
Proof.
  intros Hc. simpl. rewrite !merge_variables_referenced.
  unfold referenced at 3. unfold merge_variables. rewrite Hc.
  by rewrite !(right_id_L ∅ (∪)).
Qed.

Lemma ParamObj_init_binary s c x y :
  isParametrized c = false →
  ParamObj_init s c [x; y] []
  = mkParamObj c (referenced s y ∪ referenced s x) [x; y] [] VNone ∅.
Proof. intros Hc. by rewrite <-(variables_init_binary s c x y Hc). Qed.

Lemma injected_entry `{Runtime} fwd rfl b :
  OpSupport_injected !! fwd = Some (partial_do_op fwd) →
  OpSupport_injected !! rfl = Some (partial_do_rop fwd) →
  operator_getattr fwd = Some (VBuiltin b) →
  ∀ s self other,
    call_injected fwd self other s
    = (Ok (VParamObj (length (nodes s))),
       set_nodes (λ ns, ns ++ [mkParamObj (VBuiltin b) (referenced s other ∪ referenced s self)
                                 [self; other] [] VNone ∅]) s)
    ∧ call_injected rfl self other s
      = (Ok (VParamObj (length (nodes s))),
         set_nodes (λ ns, ns ++ [mkParamObj (VBuiltin b) (referenced s self ∪ referenced s other)
                                   [other; self] [] VNone ∅]) s).
Proof.
  intros Hfwd Hrfl Hb s self other.
  unfold call_injected, _do_op, _do_rop. rewrite Hfwd, Hrfl, Hb.
  rewrite !new_ParamObj_bound by done. unfold allocate.
  by rewrite !(ParamObj_init_binary s (VBuiltin b)).
Qed.

(** X2. The loop over [reversible_ops] injects fourteen methods and no
    other: for each of the seven operators the forward method [__op__] and
    the reflected method [__rop__].  Called on [self] with [other], the
    forward method allocates a node whose target is the function of
    [operator] and whose arguments are [(self, other)], the reflected one a
    node with the arguments [(other, self)]; the node has the variables of
    the two operands, no cached instance and the empty snapshot, and nothing
    else in the store changes: no operand is built and nothing is called. *)
Theorem injected_operator_methods `{Runtime} :
  Forall (λ m : string * string * builtin,
            let '(fwd, rfl, b) := m in
            ∀ s self other,
              call_injected fwd self other s
              = (Ok (VParamObj (length (nodes s))),
                 set_nodes (λ ns, ns ++ [mkParamObj (VBuiltin b)
                                           (referenced s other ∪ referenced s self)
                                           [self; other] [] VNone ∅]) s)
              ∧ call_injected rfl self other s
                = (Ok (VParamObj (length (nodes s))),
                   set_nodes (λ ns, ns ++ [mkParamObj (VBuiltin b)
                                             (referenced s self ∪ referenced s other)
                                             [other; self] [] VNone ∅]) s))
         operator_methods
  ∧ dom OpSupport_injected
    = list_to_set (operator_methods.*1.*1 ++ operator_methods.*1.*2).
Proof.
  split.
  - unfold operator_methods.
    repeat (apply Forall_cons; split;
            [apply injected_entry; vm_compute; reflexivity|]).
    done.
  - vm_compute. reflexivity.
Qed.

(** ** The first build of operator, attribute and call nodes *)

Section FirstBuild.
Context `{Runtime}.

Lemma record_snapshot_lookup s n p :
  nodes s !! n = Some p →
  record_snapshot n s
  = set_nodes (alter (with_vars_state (snapshot s (_variables p))) n) s.
Proof.
  intros Hn. unfold record_snapshot, set_nodes. f_equal.
  apply list_eq. intros i. rewrite !list_lookup_alter.
  case_decide; [subst|done]. by rewrite Hn.
Qed.

(** A build that misses, as the evaluation of the call and its caching. *)
Lemma build_stale s n p :
  wf s → nodes s !! n = Some p →
  snapshot s (_variables p) ≠ _vars_state p →
  build n s = cache_result n (evaluate (cls p) (args p) (kwargs p) (record_snapshot n s)).
Proof.
  intros Hwf Hn Hmiss.
  rewrite (build_miss s n p Hwf Hn Hmiss), rebuild_evaluate, (record_snapshot_lookup s n p Hn).
  pose proof (evaluate_keeps_node s n p (snapshot s (_variables p)) Hwf Hn) as Hkeep.
  destruct (evaluate _ _ _ _) as [[r|e|] s2]; [|done|done].
  simpl in *. by rewrite list_lookup_alter_eq, Hkeep.
Qed.

(** The first build of a node that has just been constructed and has
    variables always misses. *)
Lemma build_new_node s c a k :
  keyword_clash init_params k = None →
  wf s →
  refs_below (length (nodes s)) c →
  Forall (refs_below (length (nodes s))) a →
  Forall (refs_below (length (nodes s))) k.*2 →
  _variables (ParamObj_init s c a k) ≠ ∅ →
  let N := length (nodes s) in
  let s' := (new_ParamObj c a k s).2 in
  build N s' = cache_result N (evaluate c a k (record_snapshot N s')).
Proof.
  intros Hbound Hwf Hc Ha Hk Hvars N s'.
  assert (nodes s' !! N = Some (ParamObj_init s c a k)) as Hn
    by (unfold s'; rewrite nodes_new_ParamObj by done; by apply list_lookup_middle).
  apply (build_stale s' N _ (wf_new_ParamObj s c a k Hwf Hc Ha Hk) Hn).
  simpl. unfold snapshot. by rewrite fmap_empty_iff.
Qed.

Lemma evaluate_binary b x y s :
  evaluate (VBuiltin b) [x; y] [] s = apply_operator b x y s.
Proof.
  unfold evaluate, apply_operator. unfold bind at 1. rewrite mapM_st_pair. unfold bind.
  destruct (build_value build x s) as [[vx|e|] sa]; [|done|done].
  by destruct (build_value build y sa) as [[vy|e|] sb].
Qed.
End FirstBuild.

(** X3. Building the node of a binary operator that refers to at least one
    variable, right after its construction: the two operands are built,
    the first argument of the node first, and the function of [operator] is
    applied to the results in that order, [(self, other)] for the forward
    method and [(other, self)] for the reflected one; the result is cached
    and returned, an exception is passed on. *)
Theorem build_binary_operator `{Runtime} (s : state) (fwd rfl : string) (b : builtin)
    (self other : value) :
  (fwd, rfl, b) ∈ operator_methods →
  wf s →
  refs_below (length (nodes s)) self → refs_below (length (nodes s)) other →
  referenced s other ∪ referenced s self ≠ ∅ →
  let N := length (nodes s) in
  let s_fwd := (call_injected fwd self other s).2 in
  let s_rfl := (call_injected rfl self other s).2 in
  build N s_fwd = cache_result N (apply_operator b self other (record_snapshot N s_fwd))
  ∧ build N s_rfl = cache_result N (apply_operator b other self (record_snapshot N s_rfl)).
Proof.
  intros Hin Hwf Hself Hother Hvars N s_fwd s_rfl.
  assert (∀ s self other,
            call_injected fwd self other s = new_ParamObj (VBuiltin b) [self; other] [] s
            ∧ call_injected rfl self other s = new_ParamObj (VBuiltin b) [other; self] [] s)
    as Hmethods.
  { unfold operator_methods in Hin.
    repeat (apply elem_of_cons in Hin as [[= -> -> ->]|Hin];
            [intros s0 x y; split; vm_compute; reflexivity|]).
    by apply elem_of_nil in Hin. }
  destruct (Hmethods s self other) as [Hf Hr].
  unfold s_fwd, s_rfl. rewrite Hf, Hr. split.
  - rewrite <-evaluate_binary. apply build_new_node; [done|done|done|by repeat constructor|done|].
    by rewrite variables_init_binary.
  - rewrite <-evaluate_binary. apply build_new_node; [done|done|done|by repeat constructor|done|].
    rewrite variables_init_binary by done. intros Hempty. apply Hvars.
    pose proof (map_positive_l _ _ Hempty) as Hs. rewrite Hs in Hempty |- *.
    rewrite (left_id_L ∅ (∪)) in Hempty. rewrite Hempty. by rewrite (left_id_L ∅ (∪)).
Qed.

Lemma build_binary_operator_witness :
  (build 0 (call_injected "__sub__" (VVar 0) (VInt 3) Demo.one_var).2).1 = Ok (VInt 2)
  ∧ (build 0 (call_injected "__rsub__" (VVar 0) (VInt 3) Demo.one_var).2).1 = Ok (VInt (-2)).
Proof.
  destruct (build_binary_operator Demo.one_var "__sub__" "__rsub__" Bsub (VVar 0) (VInt 3))
    as [Hfwd Hrfl].
  - compute_done.
  - compute_done.
  - exact I.
  - exact I.
  - compute_done.
  - change (length (nodes Demo.one_var)) with 0 in Hfwd, Hrfl.
    split; [rewrite Hfwd|rewrite Hrfl]; vm_compute; reflexivity.
Defined.

Section ProxyBuild.
Context `{Runtime}.

Lemma wf_nodes s s' : nodes s' = nodes s → wf s → wf s'.
Proof. unfold wf. by intros ->. Qed.

Lemma nodes_call s n a k :
  keyword_clash init_params k = None →
  nodes (__call__ n a k s).2 = nodes s ++ [ParamObj_init s (VParamObj n) a k].
Proof. intros Hk. rewrite call_unfold by done. by destruct (__str__ _ _). Qed.

Lemma evaluate_getattr x name s :
  evaluate (VBuiltin Bgetattr) [VParamObj x; VStr name] [] s
  = (vx <- build x ;; invoke (VBuiltin Bgetattr) [vx; VStr name] []) s.
Proof.
  rewrite evaluate_binary. unfold apply_operator, bind. simpl.
  by destruct (build x s) as [[vx|e|] sa].
Qed.
End ProxyBuild.

(** X4. An attribute access on a node whose target has the attribute
    allocates the proxy node [ParamObj(getattr, x, name)] with the variables
    of [x] and changes nothing else: [x] is not built and nothing is called.
    When [x] has variables, building the proxy right after builds [x] and
    applies [getattr] to the result and the name; the result is cached and
    returned, an exception is passed on. *)
Theorem getattr_proxy_build `{Runtime} (s : state) (x : node_id) (p : ParamObj)
    (name : string) :
  wf s → nodes s !! x = Some p → hasattr s (cls p) name = Ok true →
  _variables p ≠ ∅ →
  let N := length (nodes s) in
  let s' := (__getattr__ x name s).2 in
  __getattr__ x name s = (Ok (VParamObj N), s')
  ∧ s' = set_nodes (λ ns, ns ++ [mkParamObj (VBuiltin Bgetattr) (_variables p)
                                   [VParamObj x; VStr name] [] VNone ∅]) s
  ∧ build N s'
    = cache_result N
        ((vx <- build x ;; invoke (VBuiltin Bgetattr) [vx; VStr name] [])
           (record_snapshot N s')).
Proof.
  intros Hwf Hx Hh Hvars N s'. apply lookup_lt_Some in Hx as Hlen.
  unfold s'. rewrite (getattr_found s x p name Hx Hh).
  assert (_variables (ParamObj_init s (VBuiltin Bgetattr) [VParamObj x; VStr name] [])
          = _variables p) as Hv.
  { rewrite variables_init_binary by done. unfold referenced, merge_variables. simpl.
    rewrite Hx. unfold dict_update. by rewrite (left_id_L ∅ (∪)), (right_id_L ∅ (∪)). }
  split_and!.
  - done.
  - simpl. rewrite <-Hv. done.
  - rewrite <-evaluate_getattr.
    apply build_new_node; [done|done|done|by repeat constructor|done|by rewrite Hv].
Qed.

Lemma getattr_proxy_build_witness :
  let s' := (__getattr__ 0 "duration" Demo.with_pulse).2 in
  __getattr__ 0 "duration" Demo.with_pulse = (Ok (VParamObj 1), s')
  ∧ call_log s' = []
  ∧ (build 1 s').1 = Ok (VInt 5)
  ∧ call_log (build 1 s').2
    = [mkInvocation Demo.Pulse [VInt 5] [];
       mkInvocation (VBuiltin Bgetattr) [VObj 5; VStr "duration"] []].
Proof.
  intros s'.
  destruct (getattr_proxy_build Demo.with_pulse 0
              (ParamObj_init Demo.one_var Demo.Pulse [VVar 0] []) "duration")
    as (Hget & Hs' & Hbuild).
  - compute_done.
  - vm_compute; reflexivity.
  - vm_compute; reflexivity.
  - compute_done.
  - split; [exact Hget|]. split; [vm_compute; reflexivity|].
    change (length (nodes Demo.with_pulse)) with 1 in Hbuild.
    fold s' in Hbuild. rewrite Hbuild. split; vm_compute; reflexivity.
Defined.

(** X5. Building the node that calling a node [p] with arguments (no
    keyword named [self] or [cls]) allocated, when that node has variables:
    the positional arguments are built in order, then the keyword values,
    then [p] itself, and what [p] builds to is called with the built
    arguments; the result is cached and returned, an exception is passed
    on.  Nothing of this happens at the call itself (C7). *)
Theorem call_node_build `{Runtime} (s : state) (n : node_id) (args0 : list value)
    (kwargs0 : list (string * value)) :
  wf s → n < length (nodes s) →
  Forall (refs_below (length (nodes s))) args0 →
  Forall (refs_below (length (nodes s))) kwargs0.*2 →
  keyword_clash init_params kwargs0 = None →
  _variables (ParamObj_init s (VParamObj n) args0 kwargs0) ≠ ∅ →
  let N := length (nodes s) in
  let s' := (__call__ n args0 kwargs0 s).2 in
  build N s'
  = cache_result N
      ((args_ <- mapM_st (build_value build) args0 ;;
        kwargs_ <- mapM_st (build_kwarg build) kwargs0 ;;
        obj <- build n ;;
        invoke obj args_ kwargs_) (record_snapshot N s')).
Proof.
  intros Hwf Hn Ha Hk Hbound Hvars N s'.
  pose proof (nodes_call s n args0 kwargs0 Hbound) as Hnodes. fold s' in Hnodes.
  assert (wf s') as Hwf'.
  { apply (wf_nodes (new_ParamObj (VParamObj n) args0 kwargs0 s).2);
      [by rewrite nodes_new_ParamObj|].
    by apply wf_new_ParamObj. }
  assert (nodes s' !! N = Some (ParamObj_init s (VParamObj n) args0 kwargs0)) as HN.
  { rewrite Hnodes. by apply list_lookup_middle. }
  apply (build_stale s' N _ Hwf' HN).
  simpl. unfold snapshot. by rewrite fmap_empty_iff.
Qed.

Lemma call_node_build_witness :
  let s' := (__call__ (H:=Callables.runtime) 0 [VInt 10] [] Callables.with_adder).2 in
  call_log s' = []
  ∧ (build (H:=Callables.runtime) 1 s').1 = Ok (VInt 15)
  ∧ call_log (build (H:=Callables.runtime) 1 s').2
    = [mkInvocation Callables.make_adder [VInt 5] [];
       mkInvocation (VObj 5) [VInt 10] []].
Proof.
  intros s'. split; [vm_compute; reflexivity|].
  pose proof (call_node_build (H:=Callables.runtime) Callables.with_adder 0 [VInt 10] [])
    as Hbuild.
  change (length (nodes Callables.with_adder)) with 1 in Hbuild.
  fold s' in Hbuild. rewrite Hbuild.
  - split; vm_compute; reflexivity.
  - compute_done.
  - vm_compute. lia.
  - compute_done.
  - compute_done.
  - compute_done.
  - compute_done.
Defined.

(** ** Errors *)

(** X6. An attribute access for a name the target does not have raises an
    AttributeError whose message gives the name and the rendering of the
    node, and leaves the store as it is: no node is allocated. *)
Theorem getattr_missing_raises `{Runtime} (s : state) (n : node_id) (p : ParamObj)
    (name : string) :
  wf s → named s → nodes s !! n = Some p →
  hasattr s (cls p) name = Ok false →
  ∃ rendering,
    __str__ s n = Ok rendering
    ∧ __getattr__ n name s
      = (Raise (AttributeError
                  ("No attribute named '" +:+ name +:+ "' in " +:+ rendering +:+ ".")), s).
Proof.
  intros Hwf Hnamed Hn Hh.
  destruct (str_fuel_total s (S n) n Hwf Hnamed) as [r Hr];
    [lia|by apply lookup_lt_Some in Hn|].
  exists r. split; [done|]. by apply (getattr_missing s n p).
Qed.

Lemma getattr_missing_raises_witness :
  __getattr__ 0 "amplitude" Demo.with_pulse
  = (Raise (AttributeError "No attribute named 'amplitude' in Pulse(t)."), Demo.with_pulse).
Proof.
  destruct (getattr_missing_raises Demo.with_pulse 0
              (ParamObj_init Demo.one_var Demo.Pulse [VVar 0] []) "amplitude")
    as (r & Hstr & Hraise).
  - compute_done.
  - compute_done.
  - vm_compute; reflexivity.
  - vm_compute; reflexivity.
  - assert (r = "Pulse(t)") as ->; [|exact Hraise].
    assert (__str__ Demo.with_pulse 0 = Ok "Pulse(t)") as Hc by (vm_compute; reflexivity).
    rewrite Hc in Hstr. by injection Hstr.
Defined.

Lemma mapM_st_raise {A B} (f : A → M B) (pre : list A) (a : A) (post : list A)
    (vals : list B) (e : exn) (s sa sb : state) :
  mapM_st f pre s = (Ok vals, sa) → f a sa = (Raise e, sb) →
  mapM_st f (pre ++ a :: post) s = (Raise e, sb).
Proof.
  revert vals s. induction pre as [|x pre IH]; intros vals s; simpl.
  - intros [= <- <-] Ha. unfold bind. by rewrite Ha.
  - unfold bind. destruct (f x s) as [[b|e'|] s1]; [|done|done].
    destruct (mapM_st f pre s1) as [[bs|e'|] s2] eqn:Hpre; [|done|done].
    intros [= <- <-] Ha. by rewrite (IH bs s1 Hpre Ha).
Qed.

(** X7. When the build of a positional argument raises during a cache
    miss, the build of the node raises the same exception at once: the
    store is the one the failed argument build left, so no later argument
    and no target is built and the callable of the node is not invoked, and
    the cached instance of the node is what it was. *)
Theorem build_argument_raises `{Runtime} (s sa sb : state) (n : node_id) (p : ParamObj)
    (pre post : list value) (a : value) (vals : list value) (e : exn) :
  wf s → nodes s !! n = Some p →
  snapshot s (_variables p) ≠ _vars_state p →
  args p = pre ++ a :: post →
  mapM_st (build_value build) pre (record_snapshot n s) = (Ok vals, sa) →
  build_value build a sa = (Raise e, sb) →
  build n s = (Raise e, sb)
  ∧ _instance <$> nodes sb !! n = Some (_instance p).
Proof.
  intros Hwf Hn Hmiss Hargs Hpre Ha.
  pose proof (evaluate_keeps_node s n p (snapshot s (_variables p)) Hwf Hn) as Hkeep.
  rewrite (build_stale s n p Hwf Hn Hmiss).
  rewrite <-(record_snapshot_lookup s n p Hn) in Hkeep.
  assert (evaluate (cls p) (args p) (kwargs p) (record_snapshot n s) = (Raise e, sb)) as Hev.
  { unfold evaluate. unfold bind at 1.
    by rewrite Hargs, (mapM_st_raise _ pre a post vals e _ sa sb Hpre Ha). }
  rewrite Hev in Hkeep |- *. split; [done|]. simpl in Hkeep. by rewrite Hkeep.
Qed.

Lemma build_argument_raises_witness :
  let e := PyError "ValueError" "not positive" in
  ∃ sb, build 1 Scenes.failing_argument = (Raise e, sb)
        ∧ call_log sb = [mkInvocation Demo.positive [VInt (-1)] []]
        ∧ _instance <$> nodes sb !! 1 = Some VNone.
Proof.
  intros e.
  set (sa := record_snapshot 1 Scenes.failing_argument).
  set (sb := (build_value build (VParamObj 0) sa).2).
  destruct (build_argument_raises Scenes.failing_argument sa sb 1
              (ParamObj_init Demo.with_N_negative Demo.four
                 [VVar 0; VParamObj 0; VParamObj 0] [])
              [VVar 0] [VParamObj 0] (VParamObj 0) [VInt (-1)] e)
    as [Hbuild Hinst].
  - compute_done.
  - vm_compute; reflexivity.
  - compute_done.
  - reflexivity.
  - vm_compute; reflexivity.
  - vm_compute; reflexivity.
  - exists sb. split; [exact Hbuild|]. split; [vm_compute; reflexivity|exact Hinst].
Defined.

(** ** What a build reuses *)

Section Reuse.
Context `{Runtime}.

Lemma build_value_up_to_date s a :
  up_to_date s a → build_value build a s = (Ok (cached_value s a), s).
Proof.
  destruct a; simpl; try done.
  intros (q & Hq & Hsnap). rewrite (build_hit s _ q Hq Hsnap). by rewrite Hq.
Qed.

Lemma mapM_st_up_to_date s l :
  Forall (up_to_date s) l →
  mapM_st (build_value build) l s = (Ok (cached_value s <$> l), s).
Proof.
  induction 1 as [|a l Ha _ IH]; simpl; [done|].
  unfold bind. rewrite (build_value_up_to_date s a Ha). by rewrite IH.
Qed.

Lemma mapM_st_kwargs_up_to_date s (k : list (string * value)) :
  Forall (up_to_date s) k.*2 →
  mapM_st (build_kwarg build) k s
  = (Ok ((λ kv : string * value, (kv.1, cached_value s kv.2)) <$> k), s).
Proof.
  induction k as [|kv k IH]; simpl; [done|].
  intros [Ha Hk]%Forall_cons. unfold build_kwarg at 1. unfold bind.
  rewrite (build_value_up_to_date s _ Ha). simpl. by rewrite (IH Hk).
Qed.

Lemma resolve_cls_up_to_date s c :
  up_to_date s c → resolve_cls build c s = (Ok (cached_cls s c), s).
Proof.
  destruct c; simpl; try done.
  intros (q & Hq & Hsnap). rewrite (build_hit s _ q Hq Hsnap). by rewrite Hq.
Qed.

(** Recording the snapshot of node [n] changes neither whether an older
    node is up to date nor what it caches. *)
Lemma up_to_date_record_snapshot s n a :
  refs_below n a → up_to_date s a → up_to_date (record_snapshot n s) a.
Proof.
  destruct a as [| | | | | | | |m]; simpl; try done.
  intros Hlt (q & Hq & Hsnap). exists q.
  rewrite list_lookup_alter_ne by lia. split; [done|].
  rewrite <-Hsnap. apply same_structure_snapshot.
  by apply same_structure_alter.
Qed.

Lemma cached_value_record_snapshot s n a :
  refs_below n a → cached_value (record_snapshot n s) a = cached_value s a.
Proof.
  destruct a as [| | | | | | | |m]; simpl; try done.
  intros Hlt. by rewrite list_lookup_alter_ne by lia.
Qed.

Lemma cached_cls_record_snapshot s n c :
  refs_below n c → cached_cls (record_snapshot n s) c = cached_cls s c.
Proof.
  destruct c as [| | | | | | | |m]; simpl; try done.
  intros Hlt. by rewrite list_lookup_alter_ne by lia.
Qed.
End Reuse.

(** X8. Selective re-evaluation: when a build misses and every node among
    the target and the arguments is up to date, nothing of them is built
    again.  The callable is applied to their cached instances (and to the
    current values of the variables and the concrete arguments), and this
    is the only call that is made. *)
Theorem build_reuses_children `{Runtime} (s : state) (n : node_id) (p : ParamObj) :
  wf s → nodes s !! n = Some p →
  snapshot s (_variables p) ≠ _vars_state p →
  Forall (up_to_date s) (sub_objects p) →
  build n s
  = cache_result n
      (invoke (cached_cls s (cls p))
              (cached_value s <$> args p)
              ((λ kv : string * value, (kv.1, cached_value s kv.2)) <$> kwargs p)
              (record_snapshot n s)).
Proof.
  intros Hwf Hn Hmiss Hup.
  assert (node_wf n p) as (Hc & Ha & Hk) by by eapply wf_lookup.
  unfold sub_objects in Hup.
  apply Forall_cons in Hup as [Hupc Hup]. apply Forall_app in Hup as [Hupa Hupk].
  set (s1 := record_snapshot n s).
  assert (Forall (up_to_date s1) (args p)) as Hupa1.
  { apply Forall_forall. intros a Hin. rewrite Forall_forall in Ha, Hupa.
    apply up_to_date_record_snapshot; auto. }
  assert (Forall (up_to_date s1) (kwargs p).*2) as Hupk1.
  { apply Forall_forall. intros a Hin. rewrite Forall_forall in Hk, Hupk.
    apply up_to_date_record_snapshot; auto. }
  rewrite (build_stale s n p Hwf Hn Hmiss). fold s1. f_equal.
  unfold evaluate, bind.
  rewrite (mapM_st_up_to_date s1 _ Hupa1), (mapM_st_kwargs_up_to_date s1 _ Hupk1).
  rewrite (resolve_cls_up_to_date s1 _ (up_to_date_record_snapshot s n _ Hc Hupc)).
  unfold s1. rewrite (cached_cls_record_snapshot s n _ Hc).
  f_equal.
  - apply list_fmap_ext. intros i a Hia. apply cached_value_record_snapshot.
    rewrite Forall_forall in Ha. apply Ha. by eapply list_elem_of_lookup_2.
  - apply list_fmap_ext. intros i kv Hi. f_equal. apply cached_value_record_snapshot.
    rewrite Forall_forall in Hk. apply Hk. apply list_elem_of_fmap_2.
    by eapply list_elem_of_lookup_2.
Qed.

Lemma build_reuses_children_witness :
  (build 1 Scenes.proxy_of_built).1 = Ok (VInt 5)
  ∧ call_log Scenes.proxy_of_built = [mkInvocation Demo.Pulse [VInt 5] []]
  ∧ call_log (build 1 Scenes.proxy_of_built).2
    = [mkInvocation Demo.Pulse [VInt 5] [];
       mkInvocation (VBuiltin Bgetattr) [VObj 5; VStr "duration"] []].
Proof.
  rewrite (build_reuses_children Scenes.proxy_of_built 1
             (ParamObj_init Demo.with_pulse (VBuiltin Bgetattr) [VParamObj 0; VStr "duration"] [])).
  - split_and!; vm_compute; reflexivity.
  - compute_done.
  - vm_compute; reflexivity.
  - compute_done.
  - repeat constructor.
    eexists. split; [vm_compute; reflexivity|vm_compute; reflexivity].
Defined.

Section Shared.
Context `{Runtime}.






End Shared.



(** ** Names bound more than once *)

Lemma foldl_merge_unbound s l : ∀ acc key,
  (∀ sub, sub ∈ l → isParametrized sub = true → variables s sub !! key = None) →
  foldl (merge_variables s) acc l !! key = acc !! key.
Proof.
  induction l as [|x l IH]; intros acc key Hnone; simpl; [done|].
  rewrite IH by (intros sub Hin; apply Hnone; by right).
  unfold merge_variables, dict_update. destruct (isParametrized x) eqn:Hpar; [|done].
  rewrite lookup_union_r; [done|]. apply Hnone; [left|done].
Qed.

(** X10. When several sub-objects of a node bind the same name, the node
    keeps the binding of the last of them, in the order target, positional
    arguments, keyword values: an earlier binding of the name to another
    variable is replaced. *)
Theorem last_binding_wins (s : state) (cls0 : value) (args0 : list value)
    (kwargs0 : list (string * value)) (pre post : list value) (sub : value)
    (key : string) (x : var_id) :
  cls0 :: args0 ++ kwargs0.*2 = pre ++ sub :: post →
  isParametrized sub = true → variables s sub !! key = Some x →
  (∀ sub', sub' ∈ post → isParametrized sub' = true → variables s sub' !! key = None) →
  _variables (ParamObj_init s cls0 args0 kwargs0) !! key = Some x.
Proof.
  intros Hsubs Hpar Hx Hpost.
  rewrite variables_init, Hsubs, foldl_app. simpl.
  rewrite (foldl_merge_unbound s post _ key Hpost).
  apply merge_variables_lookup. by left.
Qed.

Lemma last_binding_wins_witness :
  _variables (ParamObj_init
                (mkState [] [mkVariable "t" 0 (VInt 5); mkVariable "t" 0 (VInt 6)] [] [])
                (VBuiltin Badd) [VVar 0; VVar 1] []) !! "t" = Some 1
  ∧ (build 0 Scenes.same_name).1 = Ok (VInt 11)
  ∧ (let s2 := Demo.assign 0 (VInt 100) (build 0 Scenes.same_name).2 in
     (build 0 s2).1 = Ok (VInt 11))
  ∧ (let s2 := Demo.assign 1 (VInt 100) (build 0 Scenes.same_name).2 in
     (build 0 s2).1 = Ok (VInt 105)).
Proof.
  split; [|split_and!; vm_compute; reflexivity].
  apply (last_binding_wins _ (VBuiltin Badd) [VVar 0; VVar 1] []
           [VBuiltin Badd; VVar 0] [] (VVar 1) "t" 1).
  - reflexivity.
  - reflexivity.
  - vm_compute; reflexivity.
  - intros sub' Hin. by apply elem_of_nil in Hin.
Defined.

(** ** The footprint of a build *)

Section Footprint.
Context `{Runtime}.

Lemma build_fuel_log fuel : ∀ s0 n,
  inv (λ s', call_log s0 `prefix_of` call_log s') (build_fuel fuel n).
Proof.
  induction fuel as [|fuel IH]; intros s0 n s Hs; [done|].
  rewrite build_fuel_unfold.
  destruct (nodes s !! n) as [self|]; [|done].
  case_decide; [|done].
  assert (inv (λ s', call_log s0 `prefix_of` call_log s')
              (rebuild (build_fuel fuel) n self (snapshot s (_variables self)))) as Hr.
  { apply inv_rebuild.
    - by intros f _ s1 Hs1.
    - intros obj a k s1 Hs1. unfold invoke.
      destruct (py_call obj a k); simpl; by apply prefix_app_r.
    - intros m _. apply IH. }
  specialize (Hr s Hs).
  destruct (rebuild _ _ _ _ s) as [[[]|e|] s']; simpl in *; try done.
  by destruct (nodes s' !! n).
Qed.
End Footprint.

(** X11. A build of node [n] writes only to the cached instance and the
    snapshot of [n] and of older nodes and appends to the call log: the
    number of nodes, the target, arguments and variables of every node, the
    variables and their counters, the warnings, and every node newer than
    [n] are as they were, and the calls already logged are kept. *)
Theorem build_footprint `{Runtime} (s : state) (n : node_id) :
  wf s →
  let s' := (build n s).2 in
  skeleton <$> nodes s' = skeleton <$> nodes s
  ∧ variables_store s' = variables_store s
  ∧ warning_log s' = warning_log s
  ∧ (∀ j, n < j → nodes s' !! j = nodes s !! j)
  ∧ call_log s `prefix_of` call_log s'.
Proof.
  intros Hwf s'.
  destruct (build_structure n s) as (Hsk & Hvars & Hwarn).
  split_and!; try done.
  - intros j Hj.
    destruct (build_fuel_frame (S n) s n (S n) Hwf ltac:(lia) s (framed_refl _ _))
      as [_ Hfr].
    apply Hfr. lia.
  - by apply (build_fuel_log (S n) s n s).
Qed.

Lemma build_footprint_witness :
  let s := (__getattr__ 0 "duration" Demo.with_pulse).2 in
  let s' := (build 0 s).2 in
  nodes s' !! 1 = nodes s !! 1
  ∧ variables_store s' = variables_store s
  ∧ call_log s' = [mkInvocation Demo.Pulse [VInt 5] []].
Proof.
  intros s s'.
  destruct (build_footprint s 0) as (_ & Hvars & _ & Hframe & _).
  - compute_done.
  - split; [apply Hframe; lia|]. split; [exact Hvars|vm_compute; reflexivity].
Defined.

(** ** Rendering and serialisation do not depend on what is cached *)

Section Stable.
Context `{Runtime} `{Serializer}.

Lemma same_structure_node s s' n :
  same_structure s s' →
  match nodes s !! n, nodes s' !! n with
  | Some p, Some p' => skeleton p' = skeleton p
  | None, None => True
  | _, _ => False
  end.
Proof.
  intros [Hsk _]. apply (f_equal (.!! n)) in Hsk. rewrite !list_lookup_fmap in Hsk.
  destruct (nodes s !! n), (nodes s' !! n); simpl in Hsk; try done; congruence.
Qed.

Lemma same_structure_var_object s s' x :
  same_structure s s' → var_object s' x = var_object s x.
Proof. intros (_ & Hv & _). unfold var_object. by rewrite Hv. Qed.

Lemma str_fuel_structure s s' fuel : ∀ n,
  same_structure s s' → str_fuel fuel s' n = str_fuel fuel s n.
Proof.
  induction fuel as [|fuel IH]; intros n Hss; [done|]. simpl.
  pose proof (same_structure_node s s' n Hss) as Hn.
  destruct (nodes s !! n) as [p|], (nodes s' !! n) as [p'|]; try done.
  injection Hn as Hc _ Ha Hk. rewrite Hc, Ha, Hk.
  assert (∀ a, str_value (str_fuel fuel s') s' a = str_value (str_fuel fuel s) s a) as Hval.
  { intros []; simpl; try done; [|by apply IH].
    unfold var_name. by rewrite (same_structure_var_object s s'). }
  rewrite (mapM_outcome_ext _ _ _ Hval).
  rewrite (mapM_outcome_ext
    (λ kv : string * value, v ← str_value (str_fuel fuel s') s' kv.2; mret (kv.1 +:+ "=" +:+ v))
    (λ kv : string * value, v ← str_value (str_fuel fuel s) s kv.2; mret (kv.1 +:+ "=" +:+ v)));
    [|by intros kv; rewrite Hval].
  by rewrite Hval.
Qed.

Lemma to_dict_fuel_structure s s' fuel : ∀ n,
  same_structure s s' → to_dict_fuel fuel s' n = to_dict_fuel fuel s n.
Proof.
  induction fuel as [|fuel IH]; intros n Hss; [done|]. simpl.
  pose proof (same_structure_node s s' n Hss) as Hn.
  destruct (nodes s !! n) as [p|], (nodes s' !! n) as [p'|]; try done.
  injection Hn as Hc _ Ha Hk. rewrite Hc, Ha, Hk.
  destruct (cls p); try done.
  - by rewrite (same_structure_var_object s s').
  - by rewrite IH.
Qed.
End Stable.

(** X12. The rendering and the description of a node do not depend on what
    has been built: they are the same before and after any build, of the
    node or of another one, whether the build returned or raised. *)
Theorem rendering_ignores_builds `{Runtime} `{Serializer} (s : state) (m n : node_id) :
  __str__ (build m s).2 n = __str__ s n
  ∧ _to_dict (build m s).2 n = _to_dict s n.
Proof.
  pose proof (build_structure m s) as Hss. split.
  - by apply str_fuel_structure.
  - by apply to_dict_fuel_structure.
Qed.

(** ** Stores that operations can reach *)

(** Every injected method passes on the name of a function of [operator]. *)
Lemma injected_builtin `{Runtime} (method : string) (i : injected) :
  OpSupport_injected !! method = Some i →
  ∃ b, operator_getattr (injected_name i) = Some (VBuiltin b).
Proof.
  assert (map_Forall (λ _ i, is_Some (operator_function (injected_name i)))
                     OpSupport_injected) as Hall by compute_done.
  intros Hi. destruct (Hall method i Hi) as [b Hb]. exists b.
  unfold operator_getattr. by rewrite Hb.
Qed.

Lemma exec_wf `{Runtime} `{Serializer} (op : operation) (s : state) :
  wf s → op_valid s op → wf (exec op s).
Proof.
  intros Hwf Hop.
  destruct op as [c a k|m|m a k|m name|m|m|method self other|self|self]; simpl in *.
  - destruct Hop as (? & ? & ?). by apply wf_new_ParamObj.
  - by apply (same_structure_wf s); [apply build_structure|].
  - destruct Hop as (? & ? & ?).
    destruct (call_cases s m a k) as [->|[Hk Hnodes]]; [done|].
    apply (wf_nodes (new_ParamObj (VParamObj m) a k s).2);
      [by rewrite nodes_new_ParamObj|by apply wf_new_ParamObj].
  - unfold __getattr__, bind, get_node, lift.
    destruct (nodes s !! m) as [p|] eqn:Hm; [|done].
    destruct (hasattr s (cls p) name) as [[]| |]; simpl; try done.
    + apply (wf_new_ParamObj s _ _ []); [done|done| |by constructor].
      constructor; [|by constructor]. simpl. by eapply lookup_lt_Some.
    + by destruct (__str__ s m).
  - done.
  - done.
  - destruct Hop as [? ?]. unfold call_injected, _do_op, _do_rop.
    destruct (OpSupport_injected !! method) as [i|] eqn:Hi; [|done].
    destruct (injected_builtin method i Hi) as [b Hb].
    destruct i as [op_name|op_name]; simpl in Hb; rewrite Hb;
      apply (wf_new_ParamObj s _ _ []); by repeat constructor.
  - apply (wf_new_ParamObj s _ _ []); by repeat constructor.
  - apply (wf_new_ParamObj s _ _ []); by repeat constructor.
Qed.

(** X13. Operations keep the store acyclic: when every operation of a
    sequence is given objects that exist when it runs, every node of the
    store they leave refers to nodes older than itself only, and so the
    build of any of its nodes ends, by returning or by raising. *)
Theorem reachable_store_builds `{Runtime} `{Serializer} (ops : list operation) (s : state) :
  wf s → valid_run ops s →
  wf (run ops s)
  ∧ ∀ n, n < length (nodes (run ops s)) → (build n (run ops s)).1 ≠ Stuck.
Proof.
  intros Hwf Hops.
  assert (wf (run ops s)) as Hwf'.
  { revert s Hwf Hops. induction ops as [|op ops IH]; intros s Hwf Hops; [done|].
    destruct Hops as [Hop Hops]. simpl. apply IH; [by apply exec_wf|done]. }
  split; [done|]. intros n Hn. by apply build_safe.
Qed.

Lemma reachable_store_builds_witness :
  let ops := [op_injected "__add__" (VVar 0) (VInt 3); op_getattr 0 "__doc__";
              op_call 1 [VParamObj 0] []; op_build 2; op_neg (VParamObj 2)] in
  let s := run ops Demo.one_var in
  wf s ∧ length (nodes s) = 4 ∧ (build 3 s).1 ≠ Stuck.
Proof.
  intros ops s.
  destruct (reachable_store_builds ops Demo.one_var) as [Hwf Hbuild].
  - compute_done.
  - compute_done.
  - split; [exact Hwf|]. split; [vm_compute; reflexivity|].
    apply Hbuild. vm_compute. lia.
Defined.

(** ** The unary operators *)

Lemma evaluate_unary `{Runtime} b x s :
  evaluate (VBuiltin b) [x] [] s
  = (vx <- build_value build x ;; invoke (VBuiltin b) [vx] []) s.
Proof.
  unfold evaluate. unfold bind at 1. simpl. unfold bind.
  by destruct (build_value build x s) as [[vx|e|] sa].
Qed.

(** X14. [-x] and [abs(x)] of an object that refers to at least one
    variable construct a node whose first build builds [x] and applies
    [operator.neg], respectively [operator.abs], to the result; the result
    is cached and returned, an exception is passed on. *)
Theorem build_unary_operator `{Runtime} (s : state) (self : value) :
  wf s → refs_below (length (nodes s)) self → referenced s self ≠ ∅ →
  let N := length (nodes s) in
  let s_neg := (__neg__ self s).2 in
  let s_abs := (__abs__ self s).2 in
  (__neg__ self s).1 = Ok (VParamObj N)
  ∧ (__abs__ self s).1 = Ok (VParamObj N)
  ∧ build N s_neg
    = cache_result N ((vx <- build_value build self ;; invoke (VBuiltin Bneg) [vx] [])
                        (record_snapshot N s_neg))
  ∧ build N s_abs
    = cache_result N ((vx <- build_value build self ;; invoke (VBuiltin Babs) [vx] [])
                        (record_snapshot N s_abs)).
Proof.
  intros Hwf Hself Hvars N s_neg s_abs.
  assert (∀ b, _variables (ParamObj_init s (VBuiltin b) [self] []) ≠ ∅) as Hinit.
  { intros b. simpl. rewrite merge_variables_referenced.
    unfold merge_variables at 1. simpl. by rewrite (right_id_L ∅ (∪)). }
  split_and!; [done|done| |].
  - rewrite <-evaluate_unary.
    apply build_new_node; [done|done|done|by repeat constructor|done|apply Hinit].
  - rewrite <-evaluate_unary.
    apply build_new_node; [done|done|done|by repeat constructor|done|apply Hinit].
Qed.

Lemma build_unary_operator_witness :
  let s := Demo.assign 0 (VInt (-7)) Demo.one_var in
  (build 0 (__neg__ (VVar 0) s).2).1 = Ok (VInt 7)
  ∧ (build 0 (__abs__ (VVar 0) s).2).1 = Ok (VInt 7).
Proof.
  intros s.
  destruct (build_unary_operator s (VVar 0)) as (_ & _ & Hneg & Habs).
  - compute_done.
  - exact I.
  - compute_done.
  - change (length (nodes s)) with 0 in Hneg, Habs.
    split; [rewrite Hneg|rewrite Habs]; vm_compute; reflexivity.
Defined.

(** ** Keywords that name a parameter *)


